(** * inventory-api: the persistence schema and the auth gateway

    A shallow embedding of [src/db/schema.ts], [src/modules/auth/auth.service.ts]
    and [src/util/jwt.ts].

    The schema is declarative: every [pgTable] becomes a record type for its
    rows (a nullable column is an [option]), a record type for the values of
    an INSERT (a column with a default may be left out), and the checks that
    PostgreSQL runs for the constraints the table declares.  Tables are lists
    of rows, so uniqueness is an invariant to be proved, not a property of
    the container.  The store keeps rows in an order of its own: what is
    proved of a lookup without ORDER BY is proved for every arrangement of
    the rows. *)

From Stdlib Require Import List ZArith NArith Ascii String Bool Lia Permutation.
Import ListNotations.
Local Open Scope string_scope.
Local Open Scope list_scope.

(** ** Column types *)

(** [uuid("..")]: a 128-bit identifier. *)
Definition uuid := N.
(** [varchar("..")]. *)
Definition varchar := string.
(** [date("..")]: a calendar date, as a day number. *)
Definition date := Z.
(** [integer("..")]: PostgreSQL's four-byte signed integer. *)
Definition integer := Z.

Definition int4 (z : Z) : bool :=
  ((- 2147483648 <=? z) && (z <=? 2147483647))%Z.

Definition eq_uuid_opt (a b : option uuid) : bool :=
  match a, b with
  | Some x, Some y => N.eqb x y
  | None, None => true
  | _, _ => false
  end.

(** ** Enumerations *)

(** [pgEnum("permission_role", ["viewer", "editor", "admin"])]. *)
Inductive PermissionRole := viewer | editor | admin.

Definition permissionRole : list PermissionRole := [viewer; editor; admin].

Definition PermissionRole_eqb (a b : PermissionRole) : bool :=
  match a, b with
  | viewer, viewer | editor, editor | admin, admin => true
  | _, _ => false
  end.

(** The position of a label in the declaration of the enumeration, which is
    the order PostgreSQL gives to the values of an enum type. *)
Fixpoint enum_position (r : PermissionRole) (labels : list PermissionRole) : nat :=
  match labels with
  | [] => 0
  | l :: rest => if PermissionRole_eqb l r then 0 else S (enum_position r rest)
  end.

Definition role_rank (r : PermissionRole) : nat := enum_position r permissionRole.

(** [pgEnum("inventory_item_state", ["ok", "damaged", "lost", "orphaned"])]. *)
Inductive InventoryItemState := ok | damaged | lost | orphaned.

(** ** Tables *)

Module users.
Record row := mk {
    id : uuid;
    username : varchar;
    passwordHash : varchar;
    permissionRole : PermissionRole
  }.
  (** The values of an INSERT: [id] and [permissionRole] have defaults. *)
Record values := mkValues {
    v_id : option uuid;
    v_username : varchar;
    v_passwordHash : varchar;
    v_permissionRole : option PermissionRole
  }.
  (** [rnd] is the draw of [defaultRandom()]. *)
Definition with_defaults (rnd : uuid) (v : values) : row :=
    {| id := match v_id v with Some i => i | None => rnd end;
       username := v_username v;
       passwordHash := v_passwordHash v;
       permissionRole :=
         match v_permissionRole v with Some r => r | None => viewer end |}.
End users.
Definition User := users.row.

Module organisations.
Record row := mk {
    id : uuid;
    name : varchar
  }.
Record values := mkValues {
    v_id : option uuid;
    v_name : varchar
  }.
Definition with_defaults (rnd : uuid) (v : values) : row :=
    {| id := match v_id v with Some i => i | None => rnd end;
       name := v_name v |}.
End organisations.
Definition Organisation := organisations.row.

Module inventoryItemTypes.
Record row := mk {
    id : uuid;
    consumable : bool;
    description : option varchar
  }.
Record values := mkValues {
    v_id : option uuid;
    v_consumable : option bool;
    v_description : option varchar
  }.
Definition with_defaults (rnd : uuid) (v : values) : row :=
    {| id := match v_id v with Some i => i | None => rnd end;
       consumable := match v_consumable v with Some b => b | None => false end;
       description := v_description v |}.
End inventoryItemTypes.
Definition InventoryItemType := inventoryItemTypes.row.

Module inventoryItemTypeSources.
Record row := mk {
    id : uuid;
    manufacturerId : option uuid;
    modelName : varchar;
    resupplyUri : option varchar;
    unitPrice : option integer;
    unitPriceDate : option date
  }.
Record values := mkValues {
    v_id : option uuid;
    v_manufacturerId : option uuid;
    v_modelName : varchar;
    v_resupplyUri : option varchar;
    v_unitPrice : option integer;
    v_unitPriceDate : option date
  }.
Definition with_defaults (rnd : uuid) (v : values) : row :=
    {| id := match v_id v with Some i => i | None => rnd end;
       manufacturerId := v_manufacturerId v;
       modelName := v_modelName v;
       resupplyUri := v_resupplyUri v;
       unitPrice := v_unitPrice v;
       unitPriceDate := v_unitPriceDate v |}.
End inventoryItemTypeSources.
Definition InventoryItemTypeSource := inventoryItemTypeSources.row.

Module bomItems.
  (** Neither key column is declared [notNull()]: the row type has them
      nullable, as [InferSelectModel] does. *)
Record row := mk {
    itemTypeId : option uuid;
    ingredientTypeId : option uuid;
    quantity : integer;
    reclaimable : bool
  }.
Record values := mkValues {
    v_itemTypeId : option uuid;
    v_ingredientTypeId : option uuid;
    v_quantity : integer;
    v_reclaimable : option bool
  }.
Definition with_defaults (v : values) : row :=
    {| itemTypeId := v_itemTypeId v;
       ingredientTypeId := v_ingredientTypeId v;
       quantity := v_quantity v;
       reclaimable := match v_reclaimable v with Some b => b | None => false end |}.
  (** [primaryKey({ columns: [t.itemTypeId, t.ingredientTypeId] })]. *)
Definition pk (r : row) : option uuid * option uuid :=
    (itemTypeId r, ingredientTypeId r).
Definition pk_eqb (a b : option uuid * option uuid) : bool :=
    eq_uuid_opt (fst a) (fst b) && eq_uuid_opt (snd a) (snd b).
End bomItems.
Definition BomItem := bomItems.row.

Module inventoryItems.
Record row := mk {
    id : uuid;
    tag : option varchar;
    typeId : uuid;
    sourceId : uuid;
    locationId : option uuid;
    state : InventoryItemState;
    summary : option varchar;
    is_countable : bool;
    unit_price : option integer;
    acquired_date : option date
  }.
Record values := mkValues {
    v_id : option uuid;
    v_tag : option varchar;
    v_typeId : uuid;
    v_sourceId : uuid;
    v_locationId : option uuid;
    v_state : option InventoryItemState;
    v_summary : option varchar;
    v_is_countable : option bool;
    v_unit_price : option integer;
    v_acquired_date : option date
  }.
Definition with_defaults (rnd : uuid) (v : values) : row :=
    {| id := match v_id v with Some i => i | None => rnd end;
       tag := v_tag v;
       typeId := v_typeId v;
       sourceId := v_sourceId v;
       locationId := v_locationId v;
       state := match v_state v with Some s => s | None => ok end;
       summary := v_summary v;
       is_countable := match v_is_countable v with Some b => b | None => false end;
       unit_price := v_unit_price v;
       acquired_date := v_acquired_date v |}.
Definition set_locationId (l : option uuid) (r : row) : row :=
    {| id := id r; tag := tag r; typeId := typeId r; sourceId := sourceId r;
       locationId := l; state := state r; summary := summary r;
       is_countable := is_countable r; unit_price := unit_price r;
       acquired_date := acquired_date r |}.
End inventoryItems.
Definition InventoryItem := inventoryItems.row.

Module inventoryItemStockCounts.
Record row := mk {
    itemId : uuid;
    count : integer;
    countDate : date;
    administrative : bool;
    userId : uuid
  }.
Record values := mkValues {
    v_itemId : uuid;
    v_count : integer;
    v_countDate : date;
    v_administrative : option bool;
    v_userId : uuid
  }.
Definition with_defaults (v : values) : row :=
    {| itemId := v_itemId v;
       count := v_count v;
       countDate := v_countDate v;
       administrative := match v_administrative v with Some b => b | None => false end;
       userId := v_userId v |}.
  (** [primaryKey({ columns: [t.itemId, t.countDate] })]. *)
Definition pk (r : row) : uuid * date := (itemId r, countDate r).
Definition pk_eqb (a b : uuid * date) : bool :=
    N.eqb (fst a) (fst b) && Z.eqb (snd a) (snd b).
End inventoryItemStockCounts.
Definition InventoryItemStockCount := inventoryItemStockCounts.row.

(** ** The database *)

Record Db := mkDb {
  db_users : list User;
  db_organisations : list Organisation;
  db_inventoryItemTypes : list InventoryItemType;
  db_inventoryItemTypeSources : list InventoryItemTypeSource;
  db_bomItems : list BomItem;
  db_inventoryItems : list InventoryItem;
  db_inventoryItemStockCounts : list InventoryItemStockCount
}.

Definition empty_db : Db := mkDb [] [] [] [] [] [] [].

Definition with_users (db : Db) (l : list User) : Db :=
  mkDb l (db_organisations db) (db_inventoryItemTypes db)
       (db_inventoryItemTypeSources db) (db_bomItems db)
       (db_inventoryItems db) (db_inventoryItemStockCounts db).

Definition with_organisations (db : Db) (l : list Organisation) : Db :=
  mkDb (db_users db) l (db_inventoryItemTypes db)
       (db_inventoryItemTypeSources db) (db_bomItems db)
       (db_inventoryItems db) (db_inventoryItemStockCounts db).

Definition with_inventoryItemTypes (db : Db) (l : list InventoryItemType) : Db :=
  mkDb (db_users db) (db_organisations db) l
       (db_inventoryItemTypeSources db) (db_bomItems db)
       (db_inventoryItems db) (db_inventoryItemStockCounts db).

Definition with_inventoryItemTypeSources (db : Db) (l : list InventoryItemTypeSource) : Db :=
  mkDb (db_users db) (db_organisations db) (db_inventoryItemTypes db)
       l (db_bomItems db)
       (db_inventoryItems db) (db_inventoryItemStockCounts db).

Definition with_bomItems (db : Db) (l : list BomItem) : Db :=
  mkDb (db_users db) (db_organisations db) (db_inventoryItemTypes db)
       (db_inventoryItemTypeSources db) l
       (db_inventoryItems db) (db_inventoryItemStockCounts db).

Definition with_inventoryItems (db : Db) (l : list InventoryItem) : Db :=
  mkDb (db_users db) (db_organisations db) (db_inventoryItemTypes db)
       (db_inventoryItemTypeSources db) (db_bomItems db)
       l (db_inventoryItemStockCounts db).

Definition with_inventoryItemStockCounts (db : Db) (l : list InventoryItemStockCount) : Db :=
  mkDb (db_users db) (db_organisations db) (db_inventoryItemTypes db)
       (db_inventoryItemTypeSources db) (db_bomItems db)
       (db_inventoryItems db) l.

(** ** What the storage engine raises

    The SQLSTATE conditions the declared constraints can raise.  The first
    three are of class 23, integrity constraint violation. *)
Inductive PgError :=
| not_null_violation
| foreign_key_violation
| unique_violation
| numeric_value_out_of_range.

Inductive Result (E A : Type) :=
| Ok (a : A)
| Err (e : E).
Arguments Ok {E A} a.
Arguments Err {E A} e.

Notation "'require' b 'or' e ; k" := (if b then k else Err e)
  (at level 10, b at level 0, e at level 0, k at level 200).

(** The key columns of every table, and the referencing columns of every
    foreign key. *)
Definition user_ids (db : Db) : list uuid := map users.id (db_users db).
Definition organisation_ids (db : Db) : list uuid :=
  map organisations.id (db_organisations db).
Definition itemType_ids (db : Db) : list uuid :=
  map inventoryItemTypes.id (db_inventoryItemTypes db).
Definition source_ids (db : Db) : list uuid :=
  map inventoryItemTypeSources.id (db_inventoryItemTypeSources db).
Definition item_ids (db : Db) : list uuid :=
  map inventoryItems.id (db_inventoryItems db).
Definition bom_keys (db : Db) : list (option uuid * option uuid) :=
  map bomItems.pk (db_bomItems db).
Definition stockCount_keys (db : Db) : list (uuid * date) :=
  map inventoryItemStockCounts.pk (db_inventoryItemStockCounts db).

Definition mem_uuid (k : uuid) (ids : list uuid) : bool := existsb (N.eqb k) ids.

(** A foreign key column holding [ref] is satisfied by NULL or by a key of
    the referenced table. *)
Definition references (ref : option uuid) (ids : list uuid) : bool :=
  match ref with
  | None => true
  | Some k => mem_uuid k ids
  end.

Definition int4_opt (z : option integer) : bool :=
  match z with
  | None => true
  | Some v => int4 v
  end.

Definition is_some {A} (o : option A) : bool :=
  match o with Some _ => true | None => false end.

(** ** INSERT

    PostgreSQL converts the values to the column types, applies the
    defaults, checks NOT NULL (which a primary key implies for its columns),
    adds the row to the unique index of the primary key, and checks the
    foreign keys when the statement ends. *)

Definition insert_users (rnd : uuid) (v : users.values) (db : Db)
  : Result PgError Db :=
  let r := users.with_defaults rnd v in
  require (negb (mem_uuid (users.id r) (user_ids db))) or unique_violation;
  Ok (with_users db (db_users db ++ [r])).

Definition insert_organisations (rnd : uuid) (v : organisations.values) (db : Db)
  : Result PgError Db :=
  let r := organisations.with_defaults rnd v in
  require (negb (mem_uuid (organisations.id r) (organisation_ids db))) or unique_violation;
  Ok (with_organisations db (db_organisations db ++ [r])).

Definition insert_inventoryItemTypes (rnd : uuid) (v : inventoryItemTypes.values)
  (db : Db) : Result PgError Db :=
  let r := inventoryItemTypes.with_defaults rnd v in
  require (negb (mem_uuid (inventoryItemTypes.id r) (itemType_ids db))) or unique_violation;
  Ok (with_inventoryItemTypes db (db_inventoryItemTypes db ++ [r])).

Definition insert_inventoryItemTypeSources (rnd : uuid)
  (v : inventoryItemTypeSources.values) (db : Db) : Result PgError Db :=
  let r := inventoryItemTypeSources.with_defaults rnd v in
  require (int4_opt (inventoryItemTypeSources.unitPrice r)) or numeric_value_out_of_range;
  require (negb (mem_uuid (inventoryItemTypeSources.id r) (source_ids db))) or unique_violation;
  require (references (inventoryItemTypeSources.manufacturerId r) (organisation_ids db))
    or foreign_key_violation;
  Ok (with_inventoryItemTypeSources db (db_inventoryItemTypeSources db ++ [r])).

Definition insert_bomItems (v : bomItems.values) (db : Db) : Result PgError Db :=
  let r := bomItems.with_defaults v in
  require (int4 (bomItems.quantity r)) or numeric_value_out_of_range;
  require (is_some (bomItems.itemTypeId r) && is_some (bomItems.ingredientTypeId r))
    or not_null_violation;
  require (negb (existsb (bomItems.pk_eqb (bomItems.pk r)) (bom_keys db))) or unique_violation;
  require (references (bomItems.itemTypeId r) (itemType_ids db)
           && references (bomItems.ingredientTypeId r) (itemType_ids db))
    or foreign_key_violation;
  Ok (with_bomItems db (db_bomItems db ++ [r])).

(** The foreign key of [locationId] is on the table itself, so the new row
    counts among the rows it may reference. *)
Definition insert_inventoryItems (rnd : uuid) (v : inventoryItems.values) (db : Db)
  : Result PgError Db :=
  let r := inventoryItems.with_defaults rnd v in
  require (int4_opt (inventoryItems.unit_price r)) or numeric_value_out_of_range;
  require (negb (mem_uuid (inventoryItems.id r) (item_ids db))) or unique_violation;
  require (mem_uuid (inventoryItems.typeId r) (itemType_ids db)
           && mem_uuid (inventoryItems.sourceId r) (source_ids db)
           && references (inventoryItems.locationId r)
                (item_ids db ++ [inventoryItems.id r]))
    or foreign_key_violation;
  Ok (with_inventoryItems db (db_inventoryItems db ++ [r])).

Definition insert_inventoryItemStockCounts (v : inventoryItemStockCounts.values)
  (db : Db) : Result PgError Db :=
  let r := inventoryItemStockCounts.with_defaults v in
  require (int4 (inventoryItemStockCounts.count r)) or numeric_value_out_of_range;
  require (negb (existsb (inventoryItemStockCounts.pk_eqb (inventoryItemStockCounts.pk r))
                   (stockCount_keys db)))
    or unique_violation;
  require (mem_uuid (inventoryItemStockCounts.itemId r) (item_ids db)
           && mem_uuid (inventoryItemStockCounts.userId r) (user_ids db))
    or foreign_key_violation;
  Ok (with_inventoryItemStockCounts db (db_inventoryItemStockCounts db ++ [r])).

(** ** DELETE by primary key

    No foreign key declares an action, so each is NO ACTION: deleting a row
    that another row still references raises a foreign key violation.
    Deleting a key that is absent deletes nothing. *)

Definition mem_ref (k : uuid) (refs : list (option uuid)) : bool :=
  existsb (eq_uuid_opt (Some k)) refs.

Definition delete_users (k : uuid) (db : Db) : Result PgError Db :=
  require (negb (mem_uuid k (user_ids db)
                 && mem_uuid k (map inventoryItemStockCounts.userId
                                    (db_inventoryItemStockCounts db))))
    or foreign_key_violation;
  Ok (with_users db (filter (fun r => negb (N.eqb (users.id r) k)) (db_users db))).

Definition delete_organisations (k : uuid) (db : Db) : Result PgError Db :=
  require (negb (mem_uuid k (organisation_ids db)
                 && mem_ref k (map inventoryItemTypeSources.manufacturerId
                                   (db_inventoryItemTypeSources db))))
    or foreign_key_violation;
  Ok (with_organisations db
        (filter (fun r => negb (N.eqb (organisations.id r) k)) (db_organisations db))).

Definition delete_inventoryItemTypes (k : uuid) (db : Db) : Result PgError Db :=
  require (negb (mem_uuid k (itemType_ids db)
                 && (mem_ref k (map bomItems.itemTypeId (db_bomItems db))
                     || mem_ref k (map bomItems.ingredientTypeId (db_bomItems db))
                     || mem_uuid k (map inventoryItems.typeId (db_inventoryItems db)))))
    or foreign_key_violation;
  Ok (with_inventoryItemTypes db
        (filter (fun r => negb (N.eqb (inventoryItemTypes.id r) k))
                (db_inventoryItemTypes db))).

Definition delete_inventoryItemTypeSources (k : uuid) (db : Db) : Result PgError Db :=
  require (negb (mem_uuid k (source_ids db)
                 && mem_uuid k (map inventoryItems.sourceId (db_inventoryItems db))))
    or foreign_key_violation;
  Ok (with_inventoryItemTypeSources db
        (filter (fun r => negb (N.eqb (inventoryItemTypeSources.id r) k))
                (db_inventoryItemTypeSources db))).

Definition delete_bomItems (k : option uuid * option uuid) (db : Db)
  : Result PgError Db :=
  Ok (with_bomItems db
        (filter (fun r => negb (bomItems.pk_eqb (bomItems.pk r) k)) (db_bomItems db))).

(** The rows that remain are the ones whose references are checked: a row
    located in itself goes away together with its reference. *)
Definition delete_inventoryItems (k : uuid) (db : Db) : Result PgError Db :=
  let remaining :=
    filter (fun r => negb (N.eqb (inventoryItems.id r) k)) (db_inventoryItems db) in
  require (negb (mem_uuid k (item_ids db)
                 && (mem_ref k (map inventoryItems.locationId remaining)
                     || mem_uuid k (map inventoryItemStockCounts.itemId
                                        (db_inventoryItemStockCounts db)))))
    or foreign_key_violation;
  Ok (with_inventoryItems db remaining).

Definition delete_inventoryItemStockCounts (k : uuid * date) (db : Db)
  : Result PgError Db :=
  Ok (with_inventoryItemStockCounts db
        (filter (fun r => negb (inventoryItemStockCounts.pk_eqb
                                  (inventoryItemStockCounts.pk r) k))
                (db_inventoryItemStockCounts db))).

(** ** UPDATE of one row, found by primary key *)

Definition update_users_permissionRole (k : uuid) (role : PermissionRole) (db : Db)
  : Result PgError Db :=
  Ok (with_users db
        (map (fun r => if N.eqb (users.id r) k
                       then users.mk (users.id r) (users.username r)
                                     (users.passwordHash r) role
                       else r)
             (db_users db))).

Definition update_bomItems (k : option uuid * option uuid) (quantity : integer)
  (reclaimable : bool) (db : Db) : Result PgError Db :=
  require (int4 quantity) or numeric_value_out_of_range;
  Ok (with_bomItems db
        (map (fun r => if bomItems.pk_eqb (bomItems.pk r) k
                       then bomItems.mk (bomItems.itemTypeId r)
                                        (bomItems.ingredientTypeId r)
                                        quantity reclaimable
                       else r)
             (db_bomItems db))).

(** [parentItemFk] is the only constraint on [locationId]: the new value is
    NULL or the [id] of any row of the table, the updated row included. *)
Definition update_inventoryItems_locationId (k : uuid) (l : option uuid) (db : Db)
  : Result PgError Db :=
  require (negb (mem_uuid k (item_ids db)) || references l (item_ids db))
    or foreign_key_violation;
  Ok (with_inventoryItems db
        (map (fun r => if N.eqb (inventoryItems.id r) k
                       then inventoryItems.set_locationId l r
                       else r)
             (db_inventoryItems db))).

(** ** Statements and the states they reach *)

Inductive Statement :=
| InsertUsers (rnd : uuid) (v : users.values)
| InsertOrganisations (rnd : uuid) (v : organisations.values)
| InsertInventoryItemTypes (rnd : uuid) (v : inventoryItemTypes.values)
| InsertInventoryItemTypeSources (rnd : uuid) (v : inventoryItemTypeSources.values)
| InsertBomItems (v : bomItems.values)
| InsertInventoryItems (rnd : uuid) (v : inventoryItems.values)
| InsertInventoryItemStockCounts (v : inventoryItemStockCounts.values)
| DeleteUsers (k : uuid)
| DeleteOrganisations (k : uuid)
| DeleteInventoryItemTypes (k : uuid)
| DeleteInventoryItemTypeSources (k : uuid)
| DeleteBomItems (k : option uuid * option uuid)
| DeleteInventoryItems (k : uuid)
| DeleteInventoryItemStockCounts (k : uuid * date)
| UpdateUsersPermissionRole (k : uuid) (role : PermissionRole)
| UpdateBomItems (k : option uuid * option uuid) (quantity : integer) (reclaimable : bool)
| UpdateInventoryItemsLocationId (k : uuid) (l : option uuid).

Definition exec (s : Statement) (db : Db) : Result PgError Db :=
  match s with
  | InsertUsers rnd v => insert_users rnd v db
  | InsertOrganisations rnd v => insert_organisations rnd v db
  | InsertInventoryItemTypes rnd v => insert_inventoryItemTypes rnd v db
  | InsertInventoryItemTypeSources rnd v => insert_inventoryItemTypeSources rnd v db
  | InsertBomItems v => insert_bomItems v db
  | InsertInventoryItems rnd v => insert_inventoryItems rnd v db
  | InsertInventoryItemStockCounts v => insert_inventoryItemStockCounts v db
  | DeleteUsers k => delete_users k db
  | DeleteOrganisations k => delete_organisations k db
  | DeleteInventoryItemTypes k => delete_inventoryItemTypes k db
  | DeleteInventoryItemTypeSources k => delete_inventoryItemTypeSources k db
  | DeleteBomItems k => delete_bomItems k db
  | DeleteInventoryItems k => delete_inventoryItems k db
  | DeleteInventoryItemStockCounts k => delete_inventoryItemStockCounts k db
  | UpdateUsersPermissionRole k role => update_users_permissionRole k role db
  | UpdateBomItems k q rc => update_bomItems k q rc db
  | UpdateInventoryItemsLocationId k l => update_inventoryItems_locationId k l db
  end.

(** A statement that raises is rolled back: the database is as before. *)
Definition state_after (s : Statement) (db : Db) : Db :=
  match exec s db with
  | Ok db' => db'
  | Err _ => db
  end.

Inductive reachable : Db -> Prop :=
| reachable_empty : reachable empty_db
| reachable_exec (s : Statement) (db : Db) :
    reachable db -> reachable (state_after s db).

(** ** The constraints of the schema, as a predicate on states *)

(** Every non-NULL value of a referencing column is a key of the referenced
    table. *)
Definition fk_holds (refs : list (option uuid)) (ids : list uuid) : Prop :=
  forall k, In (Some k) refs -> In k ids.

Record constraints_hold (db : Db) : Prop := {
  pk_users : NoDup (user_ids db);
  pk_organisations : NoDup (organisation_ids db);
  pk_inventoryItemTypes : NoDup (itemType_ids db);
  pk_inventoryItemTypeSources : NoDup (source_ids db);
  pk_bomItems : NoDup (bom_keys db);
  pk_inventoryItems : NoDup (item_ids db);
  pk_inventoryItemStockCounts : NoDup (stockCount_keys db);
  nn_bomItems :
    forall r, In r (db_bomItems db) ->
      bomItems.itemTypeId r <> None /\ bomItems.ingredientTypeId r <> None;
  fk_sources_manufacturer :
    fk_holds (map inventoryItemTypeSources.manufacturerId
                  (db_inventoryItemTypeSources db))
             (organisation_ids db);
  fk_bom_itemType :
    fk_holds (map bomItems.itemTypeId (db_bomItems db)) (itemType_ids db);
  fk_bom_ingredientType :
    fk_holds (map bomItems.ingredientTypeId (db_bomItems db)) (itemType_ids db);
  fk_items_type :
    fk_holds (map (fun r => Some (inventoryItems.typeId r)) (db_inventoryItems db))
             (itemType_ids db);
  fk_items_source :
    fk_holds (map (fun r => Some (inventoryItems.sourceId r)) (db_inventoryItems db))
             (source_ids db);
  fk_items_location :
    fk_holds (map inventoryItems.locationId (db_inventoryItems db)) (item_ids db);
  fk_counts_item :
    fk_holds (map (fun r => Some (inventoryItemStockCounts.itemId r))
                  (db_inventoryItemStockCounts db))
             (item_ids db);
  fk_counts_user :
    fk_holds (map (fun r => Some (inventoryItemStockCounts.userId r))
                  (db_inventoryItemStockCounts db))
             (user_ids db)
}.

(** ** Error kinds *)

(** Modelled from the spec: the kinds of failure a caller can tell apart.
    The source defines no error type. *)
Inductive ErrorKind :=
| ConstraintViolation
| PermissionDenied
| AuthenticationFailed
| InvalidToken.

(** Modelled from the spec: what the store refuses reaches the caller as
    input to correct. *)
Definition error_kind (e : PgError) : ErrorKind :=
  match e with
  | not_null_violation => ConstraintViolation
  | foreign_key_violation => ConstraintViolation
  | unique_violation => ConstraintViolation
  | numeric_value_out_of_range => ConstraintViolation
  end.

(** Modelled from the spec: an operation hands the caller the kind of what
    the store raised. *)
Definition surface {A} (r : Result PgError A) : Result ErrorKind A :=
  match r with
  | Ok a => Ok a
  | Err e => Err (error_kind e)
  end.

(** ** [src/modules/auth/auth.service.ts] *)

(** The values a caller of [login] can be handed: [undefined], or an object
    with named fields. *)
Inductive JsField :=
| js_uuid (u : uuid)
| js_string (s : string)
| js_role (r : PermissionRole).

Inductive JsValue :=
| undefined
| js_object (fields : list (string * JsField)).

(** A row of [users] as the object the query API returns. *)
Definition user_object (u : User) : JsValue :=
  js_object [("id", js_uuid (users.id u));
             ("username", js_string (users.username u));
             ("passwordHash", js_string (users.passwordHash u));
             ("permissionRole", js_role (users.permissionRole u))].

Definition without_field (f : string) (v : JsValue) : JsValue :=
  match v with
  | js_object fields =>
      js_object (filter (fun kv => negb (String.eqb (fst kv) f)) fields)
  | _ => v
  end.

Definition has_field (f : string) (v : JsValue) : bool :=
  match v with
  | js_object fields => existsb (fun kv => String.eqb (fst kv) f) fields
  | _ => false
  end.

(** What the store raises on a query parameter that is not text it can
    hold: SQLSTATE 22021, for a string with a NUL code unit. *)
Inductive QueryError :=
| character_not_in_repertoire.

Fixpoint is_text (s : string) : bool :=
  match s with
  | EmptyString => true
  | String c rest => negb (Ascii.eqb c Ascii.zero) && is_text rest
  end.

(** What a rejected promise carries: a failure of one of the kinds above, or
    what the store raised. *)
Inductive Rejection :=
| of_kind (k : ErrorKind)
| of_store (e : QueryError).

Module AuthService.

(** [eq(users.username, username)]: equality of two varchar values. *)
Definition eq_varchar (column value : varchar) : bool := String.eqb column value.

(** [db.query.users.findFirst({ where })]: the first row that matches. *)
Definition findFirst {A} (where_ : A -> bool) (rows : list A) : option A :=
  find where_ rows.

(** [await db.query.users.findFirst({ where: eq(users.username, username) })]:
    the query is fulfilled with a row, fulfilled with nothing, or rejected by
    the store.  A row that matches is a stored varchar equal to the
    parameter, so the store has taken the parameter; without a match it has
    taken it when it is text, and raises otherwise. *)
Definition users_findFirst (db : Db) (username : string)
  : Result QueryError (option User) :=
  match findFirst (fun u => eq_varchar (users.username u) username) (db_users db) with
  | Some u => Ok (Some u)
  | None => if is_text username then Ok None else Err character_not_in_repertoire
  end.

(** The body awaits the query, binds its result to [user], and ends: the
    promise is fulfilled with [undefined], or rejected with what the query
    raised.  [password] is not read. *)
Definition login (db : Db) (username password : string)
  : Result Rejection JsValue :=
  match users_findFirst db username with
  | Ok user => Ok undefined
  | Err e => Err (of_store e)
  end.

End AuthService.

(** ** [src/util/jwt.ts] *)

(** The secrets of [Bun.env]. *)
Record Env := mkEnv {
  ACCESS_TOKEN_SECRET : string;
  REFRESH_TOKEN_SECRET : string
}.

(** [jwtSchema]: [{ user: userSchema, expiresAt: t.Number() }].  [userSchema]
    is the select schema of [users], so the claims hold a whole row;
    [expiresAt] is taken as a whole number of seconds. *)
Record JwtPayload := mkPayload {
  user : User;
  expiresAt : Z
}.

Record JwtPlugin := mkPlugin {
  name : string;
  secret : string
}.

(** The two decorators [authJwts] installs on the application. *)
Definition authJwts (env : Env) : list JwtPlugin :=
  [ {| name := "accessTokenJwt"; secret := ACCESS_TOKEN_SECRET env |};
    {| name := "refreshTokenJwt"; secret := REFRESH_TOKEN_SECRET env |} ].

Definition decorator (env : Env) (n : string) : option JwtPlugin :=
  find (fun p => String.eqb (name p) n) (authJwts env).

(** A signed token: the claims travel in clear next to their signature. *)
Record Token := mkToken {
  claims : JwtPayload;
  signature : string
}.

(** Modelled from the spec: the two kinds of token, and the decorator and
    the secret [authJwts] configures for each. *)
Inductive TokenKind := access | refresh.

Definition decorator_name (kind : TokenKind) : string :=
  match kind with
  | access => "accessTokenJwt"
  | refresh => "refreshTokenJwt"
  end.

Definition secret_of (env : Env) (kind : TokenKind) : string :=
  match kind with
  | access => ACCESS_TOKEN_SECRET env
  | refresh => REFRESH_TOKEN_SECRET env
  end.

Section Jwt.

(** The signing algorithm of the JWT library, keyed by the secret. *)
Variable sign_with : string -> JwtPayload -> string.

(** The [sign] and [verify] of a decorator: [verify] yields the claims when
    the signature is the one the secret gives, and nothing otherwise. *)
Definition jwt_sign (p : JwtPlugin) (c : JwtPayload) : Token :=
  {| claims := c; signature := sign_with (secret p) c |}.

Definition jwt_verify (p : JwtPlugin) (t : Token) : option JwtPayload :=
  if String.eqb (signature t) (sign_with (secret p) (claims t))
  then Some (claims t)
  else None.

(** Modelled from the spec: the issuing of one token, which no source file
    defines.  It signs [{user, expiresAt}] with the decorator of the kind. *)
Definition issueToken (env : Env) (kind : TokenKind) (u : User) (expires : Z)
  : option Token :=
  match decorator env (decorator_name kind) with
  | Some p => Some (jwt_sign p {| user := u; expiresAt := expires |})
  | None => None
  end.

(** Modelled from the spec: [issueTokenPair], which no source file defines.
    The clock and the two expiry horizons are arguments. *)
Definition issueTokenPair (env : Env) (now accessHorizon refreshHorizon : Z)
  (u : User) : option (Token * Token) :=
  match issueToken env access u (now + accessHorizon)%Z,
        issueToken env refresh u (now + refreshHorizon)%Z with
  | Some a, Some r => Some (a, r)
  | _, _ => None
  end.

(** Modelled from the spec: [verifyToken], which no source file defines.  A
    token is valid while [now < expiresAt] and expired from [expiresAt] on. *)
Definition verifyToken (env : Env) (now : Z) (t : Token) (kind : TokenKind)
  : Result ErrorKind User :=
  match decorator env (decorator_name kind) with
  | None => Err InvalidToken
  | Some p =>
      match jwt_verify p t with
      | None => Err InvalidToken
      | Some c => if (now <? expiresAt c)%Z then Ok (user c) else Err InvalidToken
      end
  end.

End Jwt.

(** ** The location graph of [inventory_items] *)

(** An edge of the graph: a row with identifier [i] whose [locationId] is [j]. *)
Definition located_in (db : Db) (i j : uuid) : Prop :=
  exists r, In r (db_inventoryItems db)
            /\ inventoryItems.id r = i
            /\ inventoryItems.locationId r = Some j.

(** [i] is located in [j], directly or through other items. *)
Inductive located_inside (db : Db) : uuid -> uuid -> Prop :=
| inside_here (i j : uuid) :
    located_in db i j -> located_inside db i j
| inside_further (i k j : uuid) :
    located_in db i k -> located_inside db k j -> located_inside db i j.

Definition acyclic (db : Db) : Prop :=
  forall i, ~ located_inside db i i.

(** The lookup of an item by primary key, and the location it gives. *)
Definition item_by_id (db : Db) (i : uuid) : option InventoryItem :=
  find (fun r => N.eqb (inventoryItems.id r) i) (db_inventoryItems db).

Definition location_of (db : Db) (i : uuid) : option uuid :=
  match item_by_id db i with
  | Some r => inventoryItems.locationId r
  | None => None
  end.

(** Following [location_of] from [i] ends at an item without location. *)
Inductive grounded (db : Db) : uuid -> Prop :=
| grounded_root (i : uuid) :
    location_of db i = None -> grounded db i
| grounded_step (i p : uuid) :
    location_of db i = Some p -> grounded db p -> grounded db i.

(** Following [location_of] from an item ends at an item without location and
    never passes [item]. *)
Inductive clear_of (db : Db) (item : uuid) : uuid -> Prop :=
| clear_root (x : uuid) :
    x <> item -> location_of db x = None -> clear_of db item x
| clear_step (x p : uuid) :
    x <> item -> location_of db x = Some p -> clear_of db item p ->
    clear_of db item x.

(** The items met when following [location_of] from an item up to one
    without location. *)
Inductive path (db : Db) : uuid -> list uuid -> Prop :=
| path_root (x : uuid) :
    location_of db x = None -> path db x [x]
| path_step (x p : uuid) (c : list uuid) :
    location_of db x = Some p -> path db p c -> path db x (x :: c).

(** ** The bill of materials

    A row of the bill of materials that is not a self-loop and has a positive
    quantity. *)
Definition proper_edge (r : BomItem) : Prop :=
  bomItems.itemTypeId r <> bomItems.ingredientTypeId r
  /\ (0 < bomItems.quantity r)%Z.

(** ** The operations of the schema layer

    The source declares the tables only.  The operations a service calls on
    them are modelled from the specification, on top of the statements
    above. *)

(** Modelled from the spec: the result of [currentQuantity], a count or the
    defined value for a countable item without counts. *)
Inductive Quantity :=
| known (n : integer)
| unknown.

(** Modelled from the spec: the row with the greatest [countDate]; of two
    rows with the same date, the one that comes first. *)
Fixpoint latest (rows : list InventoryItemStockCount)
  : option InventoryItemStockCount :=
  match rows with
  | [] => None
  | r :: rest =>
      match latest rest with
      | Some m =>
          if (inventoryItemStockCounts.countDate r
              <? inventoryItemStockCounts.countDate m)%Z
          then Some m else Some r
      | None => Some r
      end
  end.

(** Modelled from the spec: the stock counts of one item. *)
Definition counts_of (db : Db) (item : InventoryItem) : list InventoryItemStockCount :=
  filter (fun r => N.eqb (inventoryItemStockCounts.itemId r) (inventoryItems.id item))
         (db_inventoryItemStockCounts db).

(** Modelled from the spec: [currentQuantity], which no source file defines.
    It is 1 at once for an item that is not countable; otherwise the [count]
    of the item's row with the greatest [countDate], or [unknown] when the item
    has no row. *)
Definition currentQuantity (db : Db) (item : InventoryItem) : Quantity :=
  if negb (inventoryItems.is_countable item) then known 1%Z
  else match latest (counts_of db item) with
       | Some r => known (inventoryItemStockCounts.count r)
       | None => unknown
       end.

(** Modelled from the spec: [recordStockCount], which no source file defines.
    An administrative count by a user whose role is not [admin] is denied;
    otherwise the row is inserted, and the store refuses a second count for
    the same item and date. *)
Definition recordStockCount (item : uuid) (count : integer) (countDate : date)
  (administrative : bool) (actingUser : User) (db : Db) : Result ErrorKind Db :=
  if administrative
     && negb (PermissionRole_eqb (users.permissionRole actingUser) admin)
  then Err PermissionDenied
  else surface (insert_inventoryItemStockCounts
                  {| inventoryItemStockCounts.v_itemId := item;
                     inventoryItemStockCounts.v_count := count;
                     inventoryItemStockCounts.v_countDate := countDate;
                     inventoryItemStockCounts.v_administrative := Some administrative;
                     inventoryItemStockCounts.v_userId := users.id actingUser |}
                  db).

(** Modelled from the spec: [upsertBomItem], which no source file defines.
    A self-loop and a quantity that is not positive are refused; otherwise
    the edge is updated when the pair has one and inserted when it has none. *)
Definition upsertBomItem (itemType ingredientType : uuid) (quantity : integer)
  (reclaimable : bool) (db : Db) : Result ErrorKind Db :=
  if N.eqb itemType ingredientType || (quantity <=? 0)%Z
  then Err ConstraintViolation
  else if existsb (bomItems.pk_eqb (Some itemType, Some ingredientType)) (bom_keys db)
  then surface (update_bomItems (Some itemType, Some ingredientType)
                                quantity reclaimable db)
  else surface (insert_bomItems
                  {| bomItems.v_itemTypeId := Some itemType;
                     bomItems.v_ingredientTypeId := Some ingredientType;
                     bomItems.v_quantity := quantity;
                     bomItems.v_reclaimable := Some reclaimable |}
                  db).

(** Modelled from the spec: the ancestor walk of the cycle check, which no
    source file defines.  From [from] it follows locations upwards for at most
    [steps] steps, and answers whether [item] was met; running out of steps
    counts as meeting it. *)
Fixpoint inside_or_same (steps : nat) (db : Db) (item from : uuid) : bool :=
  if N.eqb from item then true
  else match steps with
       | O => true
       | S n =>
           match location_of db from with
           | None => false
           | Some p => inside_or_same n db item p
           end
       end.

(** Modelled from the spec: the walk is bounded by the number of items. *)
Definition would_cycle (db : Db) (item location : uuid) : bool :=
  inside_or_same (List.length (db_inventoryItems db)) db item location.

(** Modelled from the spec: [createInventoryItem], which no source file
    defines.  It fails when the type or the source do not exist, when the
    location does not resolve to an existing item, and when the location would
    create a cycle. *)
Definition createInventoryItem (rnd : uuid) (v : inventoryItems.values) (db : Db)
  : Result ErrorKind Db :=
  let r := inventoryItems.with_defaults rnd v in
  if negb (mem_uuid (inventoryItems.typeId r) (itemType_ids db)
           && mem_uuid (inventoryItems.sourceId r) (source_ids db))
  then Err ConstraintViolation
  else match inventoryItems.locationId r with
       | None => surface (insert_inventoryItems rnd v db)
       | Some l =>
           if negb (mem_uuid l (item_ids db)) || would_cycle db (inventoryItems.id r) l
           then Err ConstraintViolation
           else surface (insert_inventoryItems rnd v db)
       end.

(** Modelled from the spec: the operation that sets the location of an
    existing item, which no source file defines and the specification does
    not name.  It fails when the new location does not resolve to an existing
    item, and when it is the item itself or an item located inside it. *)
Definition setItemLocation (item : uuid) (location : option uuid) (db : Db)
  : Result ErrorKind Db :=
  match location with
  | None => surface (update_inventoryItems_locationId item None db)
  | Some l =>
      if negb (mem_uuid l (item_ids db)) || would_cycle db item l
      then Err ConstraintViolation
      else surface (update_inventoryItems_locationId item (Some l) db)
  end.

(** Modelled from the spec: what a service does to the store.  The
    operations above for the tables they guard, and plain statements for the
    tables without a rule of their own; items, stock counts and users are
    never deleted. *)
Inductive Operation :=
| CreateInventoryItem (rnd : uuid) (v : inventoryItems.values)
| SetItemLocation (item : uuid) (location : option uuid)
| RecordStockCount (item : uuid) (count : integer) (countDate : date)
    (administrative : bool) (actingUser : User)
| UpsertBomItem (itemType ingredientType : uuid) (quantity : integer)
    (reclaimable : bool)
| RegisterUser (rnd : uuid) (v : users.values)
| ChangeRole (k : uuid) (role : PermissionRole)
| AddOrganisation (rnd : uuid) (v : organisations.values)
| RemoveOrganisation (k : uuid)
| AddItemType (rnd : uuid) (v : inventoryItemTypes.values)
| RemoveItemType (k : uuid)
| AddSource (rnd : uuid) (v : inventoryItemTypeSources.values).

Definition run (op : Operation) (db : Db) : Result ErrorKind Db :=
  match op with
  | CreateInventoryItem rnd v => createInventoryItem rnd v db
  | SetItemLocation item location => setItemLocation item location db
  | RecordStockCount item count countDate administrative actingUser =>
      recordStockCount item count countDate administrative actingUser db
  | UpsertBomItem itemType ingredientType quantity reclaimable =>
      upsertBomItem itemType ingredientType quantity reclaimable db
  | RegisterUser rnd v => surface (insert_users rnd v db)
  | ChangeRole k role => surface (update_users_permissionRole k role db)
  | AddOrganisation rnd v => surface (insert_organisations rnd v db)
  | RemoveOrganisation k => surface (delete_organisations k db)
  | AddItemType rnd v => surface (insert_inventoryItemTypes rnd v db)
  | RemoveItemType k => surface (delete_inventoryItemTypes k db)
  | AddSource rnd v => surface (insert_inventoryItemTypeSources rnd v db)
  end.

(** Modelled from the spec: an operation that fails leaves the store as it
    was. *)
Definition store_after (op : Operation) (db : Db) : Db :=
  match run op db with
  | Ok db' => db'
  | Err _ => db
  end.

(** The states the operations reach from the empty store. *)
Inductive served : Db -> Prop :=
| served_empty : served empty_db
| served_run (op : Operation) (db : Db) :
    served db -> served (store_after op db).

(** ** Relations of [src/db/schema.ts]

    The relations that name their columns.  A [one] relation yields the row
    of the referenced table whose [id] equals the field, and nothing for
    NULL; the [many] relation of the same [relationName] yields the rows
    whose field equals the [id]. *)

Definition joins (field : option uuid) (k : uuid) : bool :=
  match field with
  | Some x => N.eqb x k
  | None => false
  end.

Module bomItemRelations.

(** [itemType: one(inventoryItemTypes, { relationName: "item_type",
    fields: [bomItems.itemTypeId], references: [inventoryItemTypes.id] })]. *)
Definition itemType (db : Db) (r : BomItem) : option InventoryItemType :=
  find (fun t => joins (bomItems.itemTypeId r) (inventoryItemTypes.id t))
       (db_inventoryItemTypes db).

(** [ingredientType: one(inventoryItemTypes, { relationName: "ingredient_type",
    fields: [bomItems.ingredientTypeId], references: [inventoryItemTypes.id] })]. *)
Definition ingredientType (db : Db) (r : BomItem) : option InventoryItemType :=
  find (fun t => joins (bomItems.ingredientTypeId r) (inventoryItemTypes.id t))
       (db_inventoryItemTypes db).

End bomItemRelations.

Module inventoryItemTypeRelations.

(** [madeByItems: many(bomItems, { relationName: "item_type" })]. *)
Definition madeByItems (db : Db) (t : InventoryItemType) : list BomItem :=
  filter (fun r => joins (bomItems.itemTypeId r) (inventoryItemTypes.id t))
         (db_bomItems db).

(** [usedInItems: many(bomItems, { relationName: "ingredient_type" })]. *)
Definition usedInItems (db : Db) (t : InventoryItemType) : list BomItem :=
  filter (fun r => joins (bomItems.ingredientTypeId r) (inventoryItemTypes.id t))
         (db_bomItems db).

End inventoryItemTypeRelations.

(** ** The port of [src/index.ts] *)

(** What [parseInt] returns: not-a-number, an integer that a Number holds
    exactly, minus zero, or a value beyond 2^53 that a Number only
    approximates. *)
Inductive Number :=
| NaN
| number (z : Z)
| negative_zero
| inexact.

(** White space and line terminators among the code units below 256. *)
Definition is_white_space (c : Ascii.ascii) : bool :=
  let n := Ascii.N_of_ascii c in
  ((9 <=? n) && (n <=? 13) || (n =? 32) || (n =? 160))%N.

Fixpoint trim_start (s : string) : string :=
  match s with
  | String c rest => if is_white_space c then trim_start rest else s
  | EmptyString => s
  end.

(** The value of a digit in a radix: 0-9, then a-z or A-Z from ten on. *)
Definition digit_value (radix : N) (c : Ascii.ascii) : option N :=
  let n := Ascii.N_of_ascii c in
  let v :=
    if ((48 <=? n) && (n <=? 57))%N then Some (n - 48)%N
    else if ((97 <=? n) && (n <=? 122))%N then Some (n - 87)%N
    else if ((65 <=? n) && (n <=? 90))%N then Some (n - 55)%N
    else None in
  match v with
  | Some d => if (d <? radix)%N then Some d else None
  | None => None
  end.

(** The integer the longest prefix of digits denotes, when there is one. *)
Fixpoint leading_digits (radix : N) (s : string) (acc : option N) : option N :=
  match s with
  | String c rest =>
      match digit_value radix c with
      | Some d =>
          leading_digits radix rest
            (Some (match acc with Some a => a * radix + d | None => d end)%N)
      | None => acc
      end
  | EmptyString => acc
  end.

(** A leading [-] or [+] is taken off; [-] makes the result negative. *)
Definition strip_sign (s : string) : bool * string :=
  match s with
  | String c rest =>
      if Ascii.eqb c "-" then (true, rest)
      else if Ascii.eqb c "+" then (false, rest)
      else (false, s)
  | EmptyString => (false, s)
  end.

(** Without a radix argument the radix is 10, or 16 after [0x] or [0X],
    which is taken off. *)
Definition strip_hex_prefix (s : string) : N * string :=
  match s with
  | String c (String x rest) =>
      if Ascii.eqb c "0" && (Ascii.eqb x "x" || Ascii.eqb x "X")
      then (16%N, rest)
      else (10%N, s)
  | _ => (10%N, s)
  end.

(** [parseInt(string)] without a radix: leading white space goes, then the
    sign, then the prefix of radix 16, then the digits are read.  No digit
    gives NaN; zero keeps the sign. *)
Definition parseInt (s : string) : Number :=
  let '(negative, unsigned) := strip_sign (trim_start s) in
  let '(radix, digits) := strip_hex_prefix unsigned in
  match leading_digits radix digits None with
  | None => NaN
  | Some 0%N => if negative then negative_zero else number 0
  | Some m =>
      if (m <=? 9007199254740992)%N
      then number (if negative then - Z.of_N m else Z.of_N m)
      else inexact
  end.

(** [const PORT = Bun.env.PORT ? parseInt(Bun.env.PORT) : 3000]: the variable
    may be unset, and the empty string is falsy. *)
Definition PORT (env_PORT : option string) : Number :=
  match env_PORT with
  | Some EmptyString => number 3000
  | Some s => parseInt s
  | None => number 3000
  end.

(** A decimal numeral, most significant digit first, as the string of its
    digits, and the integer it denotes. *)
Definition digit_char (d : N) : Ascii.ascii := Ascii.ascii_of_N (48 + d).

Fixpoint numeral (ds : list N) : string :=
  match ds with
  | [] => EmptyString
  | d :: rest => String (digit_char d) (numeral rest)
  end.

Definition numeral_value (ds : list N) : N :=
  fold_left (fun a d => (10 * a + d)%N) ds 0%N.

(** What may follow the decimal digits [ds] and end them: nothing, or text
    that starts with a character that is no decimal digit; after a lone 0
    that character is not x or X, which would start the prefix of radix 16. *)
Definition ends_digits (ds : list N) (tail : string) : Prop :=
  tail = EmptyString
  \/ exists c rest, tail = String c rest
                    /\ digit_value 10 c = None
                    /\ (ds = [0%N] ->
                        Ascii.eqb c "x" = false /\ Ascii.eqb c "X" = false).

(** A hexadecimal numeral, each digit with the case its letter is written
    in, and the integer it denotes. *)
Definition hex_char (upper : bool) (d : N) : Ascii.ascii :=
  if (d <? 10)%N then Ascii.ascii_of_N (48 + d)
  else if upper then Ascii.ascii_of_N (55 + d)
  else Ascii.ascii_of_N (87 + d).

Fixpoint hex_numeral (hs : list (bool * N)) : string :=
  match hs with
  | [] => EmptyString
  | (upper, h) :: rest => String (hex_char upper h) (hex_numeral rest)
  end.

Definition hex_value (hs : list (bool * N)) : N :=
  fold_left (fun a d => (16 * a + d)%N) (map snd hs) 0%N.

(** ** The construction of the decorators of [src/util/jwt.ts] *)



(** ** Sample data *)

Definition alice : User :=
  {| users.id := 1%N; users.username := "alice";
     users.passwordHash := "hash-of-alice"; users.permissionRole := editor |}.

Definition db_alice : Db := with_users empty_db [alice].

(** A stand-in for the signing algorithm, for the examples. *)
Definition sample_sign (secret : string) (c : JwtPayload) : string :=
  secret ++ ":" ++ users.username (user c).

Definition sample_env : Env :=
  {| ACCESS_TOKEN_SECRET := "s-access"; REFRESH_TOKEN_SECRET := "s-refresh" |}.

(** A small store, built by statements: two users, a shelf and a box of
    screws on it, one edge of the bill of materials, two stock counts. *)
Definition sample_statements : list Statement :=
  [ InsertUsers 1%N (users.mkValues None "alice" "hash-of-alice" (Some editor));
    InsertUsers 2%N (users.mkValues None "root" "hash-of-root" (Some admin));
    InsertOrganisations 10%N (organisations.mkValues None "Acme");
    InsertInventoryItemTypes 20%N
      (inventoryItemTypes.mkValues None (Some true) (Some "10mm Torx T25 screw"));
    InsertInventoryItemTypes 21%N
      (inventoryItemTypes.mkValues None None (Some "shelf"));
    InsertInventoryItemTypeSources 30%N
      (inventoryItemTypeSources.mkValues None (Some 10%N) "TX-25" None (Some 4%Z) None);
    InsertBomItems (bomItems.mkValues (Some 21%N) (Some 20%N) 8%Z None);
    InsertInventoryItems 40%N
      (inventoryItems.mkValues None (Some "S-1") 21%N 30%N None None None None None None);
    InsertInventoryItems 41%N
      (inventoryItems.mkValues None None 20%N 30%N (Some 40%N) None None (Some true)
         None None);
    InsertInventoryItemStockCounts
      (inventoryItemStockCounts.mkValues 41%N 100%Z 19000%Z None 1%N);
    InsertInventoryItemStockCounts
      (inventoryItemStockCounts.mkValues 41%N 90%Z 19010%Z (Some true) 2%N) ].

Definition run_statements (stmts : list Statement) (db : Db) : Db :=
  fold_left (fun d s => state_after s d) stmts db.

Definition sample_db : Db := Eval vm_compute in run_statements sample_statements empty_db.

Definition sample_shelf : InventoryItem :=
  inventoryItems.mk 40%N (Some "S-1") 21%N 30%N None ok None false None None.

Definition sample_box : InventoryItem :=
  inventoryItems.mk 41%N None 20%N 30%N (Some 40%N) ok None true None None.

Definition sample_count : InventoryItemStockCount :=
  inventoryItemStockCounts.mk 41%N 90%Z 19010%Z true 2%N.

Definition root_user : User :=
  {| users.id := 2%N; users.username := "root";
     users.passwordHash := "hash-of-root"; users.permissionRole := admin |}.

(** The same store, built by the operations of the schema layer. *)
Definition sample_operations : list Operation :=
  [ RegisterUser 1%N (users.mkValues None "alice" "hash-of-alice" (Some editor));
    RegisterUser 2%N (users.mkValues None "root" "hash-of-root" (Some admin));
    AddOrganisation 10%N (organisations.mkValues None "Acme");
    AddItemType 20%N
      (inventoryItemTypes.mkValues None (Some true) (Some "10mm Torx T25 screw"));
    AddItemType 21%N (inventoryItemTypes.mkValues None None (Some "shelf"));
    AddSource 30%N
      (inventoryItemTypeSources.mkValues None (Some 10%N) "TX-25" None (Some 4%Z) None);
    UpsertBomItem 21%N 20%N 8%Z false;
    CreateInventoryItem 40%N
      (inventoryItems.mkValues None (Some "S-1") 21%N 30%N None None None None None None);
    CreateInventoryItem 41%N
      (inventoryItems.mkValues None None 20%N 30%N (Some 40%N) None None (Some true)
         None None);
    RecordStockCount 41%N 100%Z 19000%Z false alice;
    RecordStockCount 41%N 90%Z 19010%Z true root_user ].

Definition run_operations (ops : list Operation) (db : Db) : Db :=
  fold_left (fun d op => store_after op d) ops db.

(** * Properties *)

(** ** The login handler *)

(** C1, refuted as stated: with no user at all, and with "alice" registered
    and a wrong password, [login] does not fail with [AuthenticationFailed]:
    it is fulfilled with [undefined]. *)
Lemma login_never_fails_counterexample :
  AuthService.login empty_db "nobody" "x" <> Err (of_kind AuthenticationFailed)
  /\ AuthService.login db_alice "alice" "wrongpassword"
     <> Err (of_kind AuthenticationFailed).
Proof.
  split; discriminate.
Qed.

Lemma login_found :
  forall db username password u,
    AuthService.findFirst
      (fun r => AuthService.eq_varchar (users.username r) username)
      (db_users db) = Some u ->
    AuthService.login db username password = Ok undefined.
Proof.
  intros db username password u H.
  unfold AuthService.login, AuthService.users_findFirst. rewrite H. reflexivity.
Qed.

Lemma login_outcome :
  forall db username password,
    AuthService.login db username password
    = match AuthService.findFirst
              (fun r => AuthService.eq_varchar (users.username r) username)
              (db_users db) with
      | Some _ => Ok undefined
      | None => if is_text username then Ok undefined
                else Err (of_store character_not_in_repertoire)
      end.
Proof.
  intros db username password.
  unfold AuthService.login, AuthService.users_findFirst.
  destruct (AuthService.findFirst _ _); [reflexivity |].
  destruct (is_text username); reflexivity.
Qed.

(** C1, as the code has it: for every username and password, [login] does
    not fail with [AuthenticationFailed], whether or not a user with that
    username exists and whatever the password, and its outcome does not
    depend on the password.  For a username that is text the lookup succeeds
    and [login] is fulfilled with [undefined], so a missing user and a wrong
    password cannot be told apart; for a username the store does not take,
    which matches no user, it is rejected with what the store raised. *)
Theorem login_outcome_independent_of_credentials :
  forall (db : Db) (username password : string),
    AuthService.login db username password <> Err (of_kind AuthenticationFailed)
    /\ (forall password' : string,
          AuthService.login db username password'
          = AuthService.login db username password)
    /\ (is_text username = true ->
        AuthService.login db username password = Ok undefined)
    /\ (forall (username' password' : string),
          is_text username = true -> is_text username' = true ->
          AuthService.login db username' password'
          = AuthService.login db username password)
    /\ (is_text username = false ->
        AuthService.findFirst
          (fun r => AuthService.eq_varchar (users.username r) username)
          (db_users db) = None ->
        AuthService.login db username password
        = Err (of_store character_not_in_repertoire)).
Proof.
  intros db username password.
  assert (Htext : forall n p, is_text n = true ->
                              AuthService.login db n p = Ok undefined).
  { intros n p Hn. rewrite login_outcome, Hn.
    destruct (AuthService.findFirst _ _); reflexivity. }
  split; [| split; [| split; [| split]]].
  - rewrite login_outcome.
    destruct (AuthService.findFirst _ _); [discriminate |].
    destruct (is_text username); discriminate.
  - intro password'. rewrite !login_outcome. reflexivity.
  - apply Htext.
  - intros username' password' Hu Hu'.
    rewrite (Htext username password Hu), (Htext username' password' Hu').
    reflexivity.
  - intros Hu Hnone. rewrite login_outcome, Hnone, Hu. reflexivity.
Qed.

Lemma login_outcome_independent_of_credentials_witness :
  AuthService.login db_alice "nobody" "x"
  = AuthService.login db_alice "alice" "wrongpassword"
  /\ AuthService.login db_alice "alice" "wrongpassword" = Ok undefined
  /\ AuthService.login db_alice (String "a" (String Ascii.zero "b")) "x"
     = Err (of_store character_not_in_repertoire).
Proof.
  destruct (login_outcome_independent_of_credentials
              db_alice "alice" "wrongpassword") as [_ [_ [Hok [Hsame _]]]].
  destruct (login_outcome_independent_of_credentials
              db_alice (String "a" (String Ascii.zero "b")) "x")
    as [_ [_ [_ [_ Hraise]]]].
  split; [| split].
  - apply (Hsame "nobody" "x"); reflexivity.
  - apply Hok. reflexivity.
  - apply Hraise; reflexivity.
Defined.

(** C2, refuted as stated: "alice" is found by the query, and [login] yields
    [undefined], not her record without [passwordHash].  The password is not
    read, so this is so for whichever password matches her hash. *)
Lemma login_returns_no_record_counterexample :
  AuthService.findFirst
    (fun u => AuthService.eq_varchar (users.username u) "alice")
    (db_users db_alice) = Some alice
  /\ AuthService.login db_alice "alice" "correct horse"
     <> Ok (without_field "passwordHash" (user_object alice)).
Proof.
  split; [reflexivity |].
  discriminate.
Qed.

(** C2, as the code has it: when a user with the username exists, whatever
    the password, [login] yields [undefined]: it hands out neither the record
    without [passwordHash] nor any object with a [passwordHash] field. *)
Theorem login_yields_undefined_for_existing_user :
  forall (db : Db) (username password : string) (u : User),
    AuthService.findFirst
      (fun r => AuthService.eq_varchar (users.username r) username)
      (db_users db) = Some u ->
    AuthService.login db username password = Ok undefined
    /\ AuthService.login db username password
       <> Ok (without_field "passwordHash" (user_object u))
    /\ forall v, AuthService.login db username password = Ok v ->
                 has_field "passwordHash" v = false.
Proof.
  intros db username password u Hfound.
  rewrite (login_found db username password u Hfound).
  repeat split.
  - discriminate.
  - intros v Hv. inversion Hv. reflexivity.
Qed.

Lemma login_yields_undefined_for_existing_user_witness :
  AuthService.findFirst
    (fun r => AuthService.eq_varchar (users.username r) "alice")
    (db_users db_alice) = Some alice
  /\ AuthService.login db_alice "alice" "correct horse" = Ok undefined.
Proof.
  split; [reflexivity |].
  apply (login_yields_undefined_for_existing_user
           db_alice "alice" "correct horse" alice).
  reflexivity.
Defined.

(** ** The default role *)

Lemma role_rank_viewer_least : forall r, role_rank viewer <= role_rank r.
Proof. intros []; unfold role_rank; simpl; lia. Qed.

Lemma permissionRole_closed : forall r, In r permissionRole.
Proof. intros []; simpl; auto. Qed.

(** C10: a row of [users] inserted without a [permissionRole] gets [viewer];
    [viewer] comes first in the enumeration, which has the three values
    viewer, editor and admin and no other, and it is not [admin]. *)
Theorem default_permissionRole_is_viewer :
  forall (rnd : uuid) (v : users.values) (db db' : Db),
    users.v_permissionRole v = None ->
    insert_users rnd v db = Ok db' ->
    (exists r, db_users db' = db_users db ++ [r]
               /\ users.username r = users.v_username v
               /\ users.permissionRole r = viewer
               /\ PermissionRole_eqb (users.permissionRole r) admin = false)
    /\ (forall role, In role permissionRole)
    /\ (forall role, role_rank viewer <= role_rank role).
Proof.
  intros rnd v db db' Hnone Hins.
  unfold insert_users in Hins.
  destruct (negb _) in Hins; [| discriminate].
  inversion Hins; subst db'; clear Hins.
  split; [| split; [apply permissionRole_closed | apply role_rank_viewer_least]].
  exists (users.with_defaults rnd v).
  unfold users.with_defaults; simpl. rewrite Hnone. auto.
Qed.

Lemma default_permissionRole_is_viewer_witness :
  exists r, db_users (with_users empty_db
                        [users.with_defaults 7%N
                           (users.mkValues None "bob" "hash-of-bob" None)])
            = db_users empty_db ++ [r]
            /\ users.permissionRole r = viewer.
Proof.
  destruct (default_permissionRole_is_viewer 7%N
              (users.mkValues None "bob" "hash-of-bob" None)
              empty_db
              (with_users empty_db
                 [users.with_defaults 7%N
                    (users.mkValues None "bob" "hash-of-bob" None)])
              eq_refl eq_refl) as [[r [H1 [_ [H2 _]]]] _].
  exists r. split; assumption.
Defined.

(** ** Tokens *)

Lemma decorator_of_kind :
  forall env kind,
    decorator env (decorator_name kind)
    = Some {| name := decorator_name kind; secret := secret_of env kind |}.
Proof. intros env []; reflexivity. Qed.

Lemma verifyToken_unfold :
  forall sign_with env now t kind,
    verifyToken sign_with env now t kind
    = if String.eqb (signature t) (sign_with (secret_of env kind) (claims t))
      then if (now <? expiresAt (claims t))%Z
           then Ok (user (claims t)) else Err InvalidToken
      else Err InvalidToken.
Proof.
  intros sign_with env now t kind.
  unfold verifyToken, jwt_verify. rewrite decorator_of_kind. simpl.
  destruct (String.eqb _ _); reflexivity.
Qed.

(** C8: for every token, kind and time of verification, [verifyToken] fails
    with [InvalidToken] when the signature is not the one the secret of that
    kind gives, and when [expiresAt] is not after the time of verification;
    otherwise it succeeds with the user of the claims.  A token issued for a
    user verifies to that user until its [expiresAt], and fails from then on. *)
Theorem verifyToken_checks_signature_and_expiry :
  forall (sign_with : string -> JwtPayload -> string) (env : Env) (now : Z)
         (t : Token) (kind : TokenKind),
    (signature t <> sign_with (secret_of env kind) (claims t)
     \/ (expiresAt (claims t) <= now)%Z ->
     verifyToken sign_with env now t kind = Err InvalidToken)
    /\ (signature t = sign_with (secret_of env kind) (claims t) ->
        (now < expiresAt (claims t))%Z ->
        verifyToken sign_with env now t kind = Ok (user (claims t)))
    /\ (forall (u : User) (expires : Z),
          issueToken sign_with env kind u expires = Some t ->
          verifyToken sign_with env now t kind
          = if (now <? expires)%Z then Ok u else Err InvalidToken).
Proof.
  intros sign_with env now t kind.
  rewrite verifyToken_unfold.
  split; [| split].
  - intros [Hsig | Hexp].
    + apply String.eqb_neq in Hsig. rewrite Hsig. reflexivity.
    + apply Z.ltb_ge in Hexp. rewrite Hexp.
      destruct (String.eqb _ _); reflexivity.
  - intros Hsig Hlt.
    apply String.eqb_eq in Hsig. apply Z.ltb_lt in Hlt.
    rewrite Hsig, Hlt. reflexivity.
  - intros u expires Hissue.
    unfold issueToken in Hissue. rewrite decorator_of_kind in Hissue.
    inversion Hissue; subst t; clear Hissue. simpl.
    rewrite String.eqb_refl. reflexivity.
Qed.

Lemma verifyToken_checks_signature_and_expiry_witness :
  let t := jwt_sign sample_sign
             {| name := "accessTokenJwt"; secret := "s-access" |}
             {| user := alice; expiresAt := 1000 |} in
  verifyToken sample_sign sample_env 999 t access = Ok alice
  /\ verifyToken sample_sign sample_env 1000 t access = Err InvalidToken
  /\ verifyToken sample_sign sample_env 999 t refresh = Err InvalidToken.
Proof.
  intro t.
  split; [| split].
  - apply (verifyToken_checks_signature_and_expiry
             sample_sign sample_env 999%Z t access); [reflexivity | reflexivity].
  - apply (verifyToken_checks_signature_and_expiry
             sample_sign sample_env 1000%Z t access).
    right. simpl. lia.
  - apply (verifyToken_checks_signature_and_expiry
             sample_sign sample_env 999%Z t refresh).
    left. simpl. discriminate.
Defined.

(** ** Lists of rows and their keys *)

Lemma mem_uuid_In : forall k ids, mem_uuid k ids = true <-> In k ids.
Proof.
  intros k ids. unfold mem_uuid. rewrite existsb_exists. split.
  - intros [x [Hin Heq]]. apply N.eqb_eq in Heq. subst x. exact Hin.
  - intro Hin. exists k. split; [exact Hin | apply N.eqb_refl].
Qed.

Lemma mem_uuid_not_In : forall k ids, mem_uuid k ids = false <-> ~ In k ids.
Proof.
  intros k ids. rewrite <- mem_uuid_In. destruct (mem_uuid k ids); split; intro H.
  - discriminate.
  - exfalso. apply H. reflexivity.
  - discriminate.
  - reflexivity.
Qed.

Lemma eq_uuid_opt_eq : forall a b, eq_uuid_opt a b = true <-> a = b.
Proof.
  intros [x|] [y|]; simpl; split; intro H; try discriminate; try reflexivity.
  - apply N.eqb_eq in H. subst y. reflexivity.
  - inversion H. apply N.eqb_refl.
Qed.

Lemma mem_ref_In : forall k refs, mem_ref k refs = true <-> In (Some k) refs.
Proof.
  intros k refs. unfold mem_ref. rewrite existsb_exists. split.
  - intros [x [Hin Heq]]. apply eq_uuid_opt_eq in Heq. subst x. exact Hin.
  - intro Hin. exists (Some k). split; [exact Hin | apply eq_uuid_opt_eq; reflexivity].
Qed.

Lemma bom_pk_eqb_eq : forall a b, bomItems.pk_eqb a b = true <-> a = b.
Proof.
  intros [a1 a2] [b1 b2]. unfold bomItems.pk_eqb. simpl.
  rewrite andb_true_iff, !eq_uuid_opt_eq. split.
  - intros [H1 H2]. subst. reflexivity.
  - intro H. inversion H. split; reflexivity.
Qed.

Lemma stockCount_pk_eqb_eq :
  forall a b, inventoryItemStockCounts.pk_eqb a b = true <-> a = b.
Proof.
  intros [a1 a2] [b1 b2]. unfold inventoryItemStockCounts.pk_eqb. simpl.
  rewrite andb_true_iff, N.eqb_eq, Z.eqb_eq. split.
  - intros [H1 H2]. subst. reflexivity.
  - intro H. inversion H. split; reflexivity.
Qed.

Lemma bom_key_mem :
  forall k keys, existsb (bomItems.pk_eqb k) keys = true <-> In k keys.
Proof.
  intros k keys. rewrite existsb_exists. split.
  - intros [x [Hin Heq]]. apply bom_pk_eqb_eq in Heq. subst x. exact Hin.
  - intro Hin. exists k. split; [exact Hin | apply bom_pk_eqb_eq; reflexivity].
Qed.

Lemma stockCount_key_mem :
  forall k keys,
    existsb (inventoryItemStockCounts.pk_eqb k) keys = true <-> In k keys.
Proof.
  intros k keys. rewrite existsb_exists. split.
  - intros [x [Hin Heq]]. apply stockCount_pk_eqb_eq in Heq. subst x. exact Hin.
  - intro Hin. exists k. split; [exact Hin | apply stockCount_pk_eqb_eq; reflexivity].
Qed.

Section Rows.

Context {A K : Type} (key : A -> K).

Lemma NoDup_keys_snoc :
  forall (rows : list A) (r : A),
    NoDup (map key rows) -> ~ In (key r) (map key rows) ->
    NoDup (map key (rows ++ [r])).
Proof.
  intros rows r Hnd Hfresh.
  rewrite map_app. simpl.
  apply NoDup_app. repeat split.
  - exact Hnd.
  - constructor; [intros [] | constructor].
  - intros k Hin [Heq | []]. subst k. contradiction.
Qed.

Lemma NoDup_keys_filter :
  forall (p : A -> bool) (rows : list A),
    NoDup (map key rows) -> NoDup (map key (filter p rows)).
Proof.
  intros p rows. induction rows as [| r rows IH]; simpl; intro Hnd.
  - constructor.
  - inversion Hnd as [| k ks Hnotin Hnd']; subst.
    destruct (p r); simpl.
    + constructor; [| apply IH; exact Hnd'].
      intro Hin. apply Hnotin.
      apply in_map_iff in Hin. destruct Hin as [x [Hx Hin]].
      apply filter_In in Hin. destruct Hin as [Hin _].
      apply in_map_iff. exists x. split; assumption.
    + apply IH. exact Hnd'.
Qed.

Lemma keys_of_update :
  forall (f : A -> A) (rows : list A),
    (forall r, key (f r) = key r) -> map key (map f rows) = map key rows.
Proof.
  intros f rows Hkey. rewrite map_map. apply map_ext. exact Hkey.
Qed.

End Rows.

(** ** Foreign keys *)

Lemma references_fk :
  forall ref ids, references ref ids = true <-> (forall k, ref = Some k -> In k ids).
Proof.
  intros [x|] ids; simpl.
  - rewrite mem_uuid_In. split.
    + intros Hin k Hk. inversion Hk. subst k. exact Hin.
    + intro H. apply H. reflexivity.
  - split; [intros _ k Hk; discriminate | reflexivity].
Qed.

Section ForeignKeys.

Context {A : Type} (col : A -> option uuid).

Lemma fk_holds_parent_grows :
  forall (rows : list A) (ids ids' : list uuid),
    fk_holds (map col rows) ids -> incl ids ids' -> fk_holds (map col rows) ids'.
Proof.
  intros rows ids ids' Hfk Hincl k Hin. apply Hincl. apply Hfk. exact Hin.
Qed.

Lemma fk_holds_snoc :
  forall (rows : list A) (r : A) (ids : list uuid),
    fk_holds (map col rows) ids ->
    (forall k, col r = Some k -> In k ids) ->
    fk_holds (map col (rows ++ [r])) ids.
Proof.
  intros rows r ids Hfk Hr k Hin.
  rewrite map_app in Hin. apply in_app_or in Hin.
  destruct Hin as [Hin | [Heq | []]].
  - apply Hfk. exact Hin.
  - apply Hr. exact Heq.
Qed.

Lemma fk_holds_filter :
  forall (p : A -> bool) (rows : list A) (ids : list uuid),
    fk_holds (map col rows) ids -> fk_holds (map col (filter p rows)) ids.
Proof.
  intros p rows ids Hfk k Hin. apply Hfk.
  apply in_map_iff in Hin. destruct Hin as [x [Hx Hin]].
  apply filter_In in Hin. destruct Hin as [Hin _].
  apply in_map_iff. exists x. split; assumption.
Qed.

Lemma fk_holds_update :
  forall (f : A -> A) (rows : list A) (ids : list uuid),
    (forall r, col (f r) = col r) ->
    fk_holds (map col rows) ids -> fk_holds (map col (map f rows)) ids.
Proof.
  intros f rows ids Hcol Hfk.
  rewrite (keys_of_update col f rows Hcol). exact Hfk.
Qed.

End ForeignKeys.

(** Deleting the parent row [k] keeps a foreign key when no remaining row
    references [k]. *)
Lemma fk_holds_parent_deleted :
  forall {P : Type} (id_of : P -> uuid) (parents : list P)
         (refs : list (option uuid)) (k : uuid),
    fk_holds refs (map id_of parents) ->
    ~ (In k (map id_of parents) /\ In (Some k) refs) ->
    fk_holds refs
      (map id_of (filter (fun r => negb (N.eqb (id_of r) k)) parents)).
Proof.
  intros P id_of parents refs k Hfk Hfree x Hin.
  pose proof (Hfk x Hin) as Hx.
  apply in_map_iff in Hx. destruct Hx as [r [Hr Hrin]].
  apply in_map_iff. exists r. split; [exact Hr |].
  apply filter_In. split; [exact Hrin |].
  apply negb_true_iff. apply N.eqb_neq. intro Heq.
  apply Hfree. split.
  - apply in_map_iff. exists r. split; [exact Heq | exact Hrin].
  - rewrite <- Heq, Hr. exact Hin.
Qed.

Lemma incl_snoc : forall {T : Type} (l : list T) (x : T), incl l (l ++ [x]).
Proof. intros T l x y Hy. apply in_or_app. left. exact Hy. Qed.

(** ** Every statement keeps the constraints *)

Ltac norm_db :=
  unfold user_ids, organisation_ids, itemType_ids, source_ids, item_ids,
    bom_keys, stockCount_keys, with_users, with_organisations,
    with_inventoryItemTypes, with_inventoryItemTypeSources, with_bomItems,
    with_inventoryItems, with_inventoryItemStockCounts in *;
  simpl in *.

Ltac passed H :=
  match type of H with
  | (if ?b then _ else _) = _ =>
      let E := fresh "Hcheck" in destruct b eqn:E; [| discriminate H]
  end.

Ltac committed H := inversion H; subst; clear H.

Lemma insert_users_keeps :
  forall rnd v db db',
    constraints_hold db -> insert_users rnd v db = Ok db' -> constraints_hold db'.
Proof.
  intros rnd v db db' H E. unfold insert_users in E. passed E. committed E.
  apply negb_true_iff, mem_uuid_not_In in Hcheck.
  destruct H. constructor; norm_db; try assumption.
  - apply NoDup_keys_snoc; assumption.
  - rewrite map_app.
    eapply fk_holds_parent_grows; [eassumption | apply incl_snoc].
Qed.

Lemma insert_organisations_keeps :
  forall rnd v db db',
    constraints_hold db -> insert_organisations rnd v db = Ok db' ->
    constraints_hold db'.
Proof.
  intros rnd v db db' H E. unfold insert_organisations in E. passed E. committed E.
  apply negb_true_iff, mem_uuid_not_In in Hcheck.
  destruct H. constructor; norm_db; try assumption.
  - apply NoDup_keys_snoc; assumption.
  - rewrite map_app.
    eapply fk_holds_parent_grows; [eassumption | apply incl_snoc].
Qed.

Lemma insert_inventoryItemTypes_keeps :
  forall rnd v db db',
    constraints_hold db -> insert_inventoryItemTypes rnd v db = Ok db' ->
    constraints_hold db'.
Proof.
  intros rnd v db db' H E. unfold insert_inventoryItemTypes in E.
  passed E. committed E.
  apply negb_true_iff, mem_uuid_not_In in Hcheck.
  destruct H. constructor; norm_db; try assumption;
    try (rewrite map_app;
         eapply fk_holds_parent_grows; [eassumption | apply incl_snoc]).
  apply NoDup_keys_snoc; assumption.
Qed.

Lemma insert_inventoryItemTypeSources_keeps :
  forall rnd v db db',
    constraints_hold db -> insert_inventoryItemTypeSources rnd v db = Ok db' ->
    constraints_hold db'.
Proof.
  intros rnd v db db' H E. unfold insert_inventoryItemTypeSources in E.
  passed E. passed E. passed E. committed E.
  apply negb_true_iff, mem_uuid_not_In in Hcheck0.
  destruct H. constructor; norm_db; try assumption.
  - apply NoDup_keys_snoc; assumption.
  - apply fk_holds_snoc; [assumption |].
    apply references_fk. exact Hcheck1.
  - rewrite map_app.
    eapply fk_holds_parent_grows; [eassumption | apply incl_snoc].
Qed.

Lemma insert_bomItems_keeps :
  forall v db db',
    constraints_hold db -> insert_bomItems v db = Ok db' -> constraints_hold db'.
Proof.
  intros v db db' H E. unfold insert_bomItems in E.
  passed E. passed E. passed E. passed E. committed E.
  apply andb_true_iff in Hcheck0. destruct Hcheck0 as [Hnn1 Hnn2].
  apply andb_true_iff in Hcheck2. destruct Hcheck2 as [Hfk1 Hfk2].
  apply negb_true_iff in Hcheck1.
  destruct H. constructor; norm_db; try assumption.
  - apply NoDup_keys_snoc; [assumption |].
    intro Hin. apply bom_key_mem in Hin.
    unfold bom_keys in Hcheck1. rewrite Hin in Hcheck1. discriminate.
  - intros r Hin. apply in_app_or in Hin. destruct Hin as [Hin | [Heq | []]].
    + apply nn_bomItems0. exact Hin.
    + subst r. simpl.
      destruct (bomItems.v_itemTypeId v); [| discriminate].
      destruct (bomItems.v_ingredientTypeId v); [| discriminate].
      split; discriminate.
  - apply fk_holds_snoc; [assumption |]. apply references_fk. exact Hfk1.
  - apply fk_holds_snoc; [assumption |]. apply references_fk. exact Hfk2.
Qed.

Lemma insert_inventoryItems_keeps :
  forall rnd v db db',
    constraints_hold db -> insert_inventoryItems rnd v db = Ok db' ->
    constraints_hold db'.
Proof.
  intros rnd v db db' H E. unfold insert_inventoryItems in E.
  passed E. passed E. passed E. committed E.
  apply negb_true_iff, mem_uuid_not_In in Hcheck0.
  apply andb_true_iff in Hcheck1. destruct Hcheck1 as [Hfk Hloc].
  apply andb_true_iff in Hfk. destruct Hfk as [Htype Hsource].
  apply mem_uuid_In in Htype. apply mem_uuid_In in Hsource.
  destruct H. constructor; norm_db; try assumption.
  - apply NoDup_keys_snoc; assumption.
  - apply fk_holds_snoc; [assumption |].
    intros k Hk. inversion Hk. subst k. exact Htype.
  - apply fk_holds_snoc; [assumption |].
    intros k Hk. inversion Hk. subst k. exact Hsource.
  - apply fk_holds_snoc.
    + rewrite map_app.
      eapply fk_holds_parent_grows; [eassumption | apply incl_snoc].
    + rewrite map_app. apply references_fk. exact Hloc.
  - rewrite map_app.
    eapply fk_holds_parent_grows; [eassumption | apply incl_snoc].
Qed.

Lemma insert_inventoryItemStockCounts_keeps :
  forall v db db',
    constraints_hold db -> insert_inventoryItemStockCounts v db = Ok db' ->
    constraints_hold db'.
Proof.
  intros v db db' H E. unfold insert_inventoryItemStockCounts in E.
  passed E. passed E. passed E. committed E.
  apply negb_true_iff in Hcheck0.
  apply andb_true_iff in Hcheck1. destruct Hcheck1 as [Hitem Huser].
  apply mem_uuid_In in Hitem. apply mem_uuid_In in Huser.
  destruct H. constructor; norm_db; try assumption.
  - apply NoDup_keys_snoc; [assumption |].
    intro Hin. apply stockCount_key_mem in Hin.
    unfold stockCount_keys in Hcheck0. rewrite Hin in Hcheck0. discriminate.
  - apply fk_holds_snoc; [assumption |].
    intros k Hk. inversion Hk. subst k. exact Hitem.
  - apply fk_holds_snoc; [assumption |].
    intros k Hk. inversion Hk. subst k. exact Huser.
Qed.

Lemma not_both :
  forall a b : bool, negb (a && b) = true -> ~ (a = true /\ b = true).
Proof. intros [] []; simpl; intros H [Ha Hb]; discriminate. Qed.

Lemma In_some_map :
  forall {T : Type} (f : T -> uuid) (rows : list T) (k : uuid),
    In (Some k) (map (fun r => Some (f r)) rows) <-> In k (map f rows).
Proof.
  intros T f rows k. rewrite !in_map_iff. split.
  - intros [r [Hr Hin]]. inversion Hr. exists r. split; [reflexivity | exact Hin].
  - intros [r [Hr Hin]]. exists r. split; [rewrite Hr; reflexivity | exact Hin].
Qed.

Lemma delete_users_keeps :
  forall k db db',
    constraints_hold db -> delete_users k db = Ok db' -> constraints_hold db'.
Proof.
  intros k db db' H E. unfold delete_users in E. passed E. committed E.
  apply not_both in Hcheck.
  destruct H. constructor; norm_db; try assumption.
  - apply NoDup_keys_filter. assumption.
  - apply fk_holds_parent_deleted; [assumption |].
    intros [Hk Href]. apply Hcheck. split.
    + apply mem_uuid_In. exact Hk.
    + apply mem_uuid_In. apply In_some_map. exact Href.
Qed.

Lemma delete_organisations_keeps :
  forall k db db',
    constraints_hold db -> delete_organisations k db = Ok db' ->
    constraints_hold db'.
Proof.
  intros k db db' H E. unfold delete_organisations in E. passed E. committed E.
  apply not_both in Hcheck.
  destruct H. constructor; norm_db; try assumption.
  - apply NoDup_keys_filter. assumption.
  - apply fk_holds_parent_deleted; [assumption |].
    intros [Hk Href]. apply Hcheck. split.
    + apply mem_uuid_In. exact Hk.
    + apply mem_ref_In. exact Href.
Qed.

Lemma delete_inventoryItemTypes_keeps :
  forall k db db',
    constraints_hold db -> delete_inventoryItemTypes k db = Ok db' ->
    constraints_hold db'.
Proof.
  intros k db db' H E. unfold delete_inventoryItemTypes in E.
  passed E. committed E.
  apply not_both in Hcheck.
  destruct H. constructor; norm_db; try assumption.
  - apply NoDup_keys_filter. assumption.
  - apply fk_holds_parent_deleted; [assumption |].
    intros [Hk Href]. apply Hcheck. split; [apply mem_uuid_In; exact Hk |].
    apply mem_ref_In in Href. rewrite Href. reflexivity.
  - apply fk_holds_parent_deleted; [assumption |].
    intros [Hk Href]. apply Hcheck. split; [apply mem_uuid_In; exact Hk |].
    apply mem_ref_In in Href. rewrite Href. apply orb_true_iff. left.
    apply orb_true_r.
  - apply fk_holds_parent_deleted; [assumption |].
    intros [Hk Href]. apply Hcheck. split; [apply mem_uuid_In; exact Hk |].
    apply In_some_map, mem_uuid_In in Href. rewrite Href. apply orb_true_r.
Qed.

Lemma delete_inventoryItemTypeSources_keeps :
  forall k db db',
    constraints_hold db -> delete_inventoryItemTypeSources k db = Ok db' ->
    constraints_hold db'.
Proof.
  intros k db db' H E. unfold delete_inventoryItemTypeSources in E.
  passed E. committed E.
  apply not_both in Hcheck.
  destruct H. constructor; norm_db; try assumption.
  - apply NoDup_keys_filter. assumption.
  - apply fk_holds_filter. assumption.
  - apply fk_holds_parent_deleted; [assumption |].
    intros [Hk Href]. apply Hcheck. split; [apply mem_uuid_In; exact Hk |].
    apply mem_uuid_In, In_some_map. exact Href.
Qed.

Lemma delete_bomItems_keeps :
  forall k db db',
    constraints_hold db -> delete_bomItems k db = Ok db' -> constraints_hold db'.
Proof.
  intros k db db' H E. unfold delete_bomItems in E. committed E.
  destruct H. constructor; norm_db; try assumption.
  - apply NoDup_keys_filter. assumption.
  - intros r Hin. apply filter_In in Hin. apply nn_bomItems0. apply Hin.
  - apply fk_holds_filter. assumption.
  - apply fk_holds_filter. assumption.
Qed.

Lemma delete_inventoryItemStockCounts_keeps :
  forall k db db',
    constraints_hold db -> delete_inventoryItemStockCounts k db = Ok db' ->
    constraints_hold db'.
Proof.
  intros k db db' H E. unfold delete_inventoryItemStockCounts in E. committed E.
  destruct H. constructor; norm_db; try assumption.
  - apply NoDup_keys_filter. assumption.
  - apply (fk_holds_filter (fun r => Some (inventoryItemStockCounts.itemId r))).
    assumption.
  - apply (fk_holds_filter (fun r => Some (inventoryItemStockCounts.userId r))).
    assumption.
Qed.

Lemma delete_inventoryItems_keeps :
  forall k db db',
    constraints_hold db -> delete_inventoryItems k db = Ok db' ->
    constraints_hold db'.
Proof.
  intros k db db' H E. unfold delete_inventoryItems in E. passed E. committed E.
  apply not_both in Hcheck.
  destruct H. constructor; norm_db; try assumption.
  - apply NoDup_keys_filter. assumption.
  - apply (fk_holds_filter (fun r => Some (inventoryItems.typeId r))). assumption.
  - apply (fk_holds_filter (fun r => Some (inventoryItems.sourceId r))). assumption.
  - apply fk_holds_parent_deleted.
    + apply fk_holds_filter. assumption.
    + intros [Hk Href]. apply Hcheck. split; [apply mem_uuid_In; exact Hk |].
      apply mem_ref_In in Href. rewrite Href. reflexivity.
  - apply fk_holds_parent_deleted; [assumption |].
    intros [Hk Href]. apply Hcheck. split; [apply mem_uuid_In; exact Hk |].
    apply In_some_map, mem_uuid_In in Href. rewrite Href. apply orb_true_r.
Qed.

Lemma update_users_permissionRole_keeps :
  forall k role db db',
    constraints_hold db -> update_users_permissionRole k role db = Ok db' ->
    constraints_hold db'.
Proof.
  intros k role db db' H E. unfold update_users_permissionRole in E. committed E.
  assert (Hid : forall r : User,
             users.id (if N.eqb (users.id r) k
                       then users.mk (users.id r) (users.username r)
                                     (users.passwordHash r) role
                       else r) = users.id r).
  { intro r. destruct (N.eqb _ _); reflexivity. }
  destruct H. constructor; norm_db; try assumption;
    rewrite (keys_of_update users.id _ _ Hid); assumption.
Qed.

Lemma update_bomItems_keeps :
  forall k q rc db db',
    constraints_hold db -> update_bomItems k q rc db = Ok db' ->
    constraints_hold db'.
Proof.
  intros k q rc db db' H E. unfold update_bomItems in E. passed E. committed E.
  set (f := fun r : BomItem =>
              if bomItems.pk_eqb (bomItems.pk r) k
              then bomItems.mk (bomItems.itemTypeId r) (bomItems.ingredientTypeId r)
                               q rc
              else r).
  assert (H1 : forall r, bomItems.itemTypeId (f r) = bomItems.itemTypeId r).
  { intro r. unfold f. destruct (bomItems.pk_eqb _ _); reflexivity. }
  assert (H2 : forall r, bomItems.ingredientTypeId (f r) = bomItems.ingredientTypeId r).
  { intro r. unfold f. destruct (bomItems.pk_eqb _ _); reflexivity. }
  assert (Hpk : forall r, bomItems.pk (f r) = bomItems.pk r).
  { intro r. unfold bomItems.pk. rewrite H1, H2. reflexivity. }
  destruct H. constructor; norm_db; try assumption.
  - rewrite (keys_of_update bomItems.pk f _ Hpk). assumption.
  - intros r Hin. apply in_map_iff in Hin. destruct Hin as [r0 [Hr0 Hin]].
    rewrite <- Hr0. change (bomItems.itemTypeId (f r0) <> None
                            /\ bomItems.ingredientTypeId (f r0) <> None).
    rewrite H1, H2. apply nn_bomItems0. exact Hin.
  - apply fk_holds_update; assumption.
  - apply fk_holds_update; assumption.
Qed.

Lemma update_inventoryItems_locationId_keeps :
  forall k l db db',
    constraints_hold db -> update_inventoryItems_locationId k l db = Ok db' ->
    constraints_hold db'.
Proof.
  intros k l db db' H E. unfold update_inventoryItems_locationId in E.
  passed E. committed E.
  set (f := fun r : InventoryItem =>
              if N.eqb (inventoryItems.id r) k
              then inventoryItems.set_locationId l r else r).
  assert (Hid : forall r, inventoryItems.id (f r) = inventoryItems.id r).
  { intro r. unfold f. destruct (N.eqb _ _); reflexivity. }
  destruct H. constructor; norm_db; try assumption.
  - rewrite (keys_of_update inventoryItems.id f _ Hid). assumption.
  - apply (fk_holds_update (fun r => Some (inventoryItems.typeId r))); [| assumption].
    intro r. unfold f. destruct (N.eqb _ _); reflexivity.
  - apply (fk_holds_update (fun r => Some (inventoryItems.sourceId r))); [| assumption].
    intro r. unfold f. destruct (N.eqb _ _); reflexivity.
  - rewrite (keys_of_update inventoryItems.id f _ Hid).
    intros x Hin. apply in_map_iff in Hin. destruct Hin as [r' [Hr' Hin]].
    apply in_map_iff in Hin. destruct Hin as [r [Hr Hin]]. subst r'.
    unfold f in Hr'. destruct (N.eqb (inventoryItems.id r) k) eqn:Hk.
    + simpl in Hr'. apply N.eqb_eq in Hk.
      assert (Hmem : mem_uuid k (map inventoryItems.id (db_inventoryItems db)) = true).
      { apply mem_uuid_In. apply in_map_iff. exists r. split; assumption. }
      rewrite Hmem in Hcheck. simpl in Hcheck.
      apply (proj1 (references_fk l _) Hcheck). exact Hr'.
    + apply fk_items_location0. apply in_map_iff. exists r. split; assumption.
  - rewrite (keys_of_update inventoryItems.id f _ Hid). assumption.
Qed.

Lemma exec_keeps :
  forall s db db', constraints_hold db -> exec s db = Ok db' -> constraints_hold db'.
Proof.
  intros [] db db' H E; simpl in E.
  - eapply insert_users_keeps; eassumption.
  - eapply insert_organisations_keeps; eassumption.
  - eapply insert_inventoryItemTypes_keeps; eassumption.
  - eapply insert_inventoryItemTypeSources_keeps; eassumption.
  - eapply insert_bomItems_keeps; eassumption.
  - eapply insert_inventoryItems_keeps; eassumption.
  - eapply insert_inventoryItemStockCounts_keeps; eassumption.
  - eapply delete_users_keeps; eassumption.
  - eapply delete_organisations_keeps; eassumption.
  - eapply delete_inventoryItemTypes_keeps; eassumption.
  - eapply delete_inventoryItemTypeSources_keeps; eassumption.
  - eapply delete_bomItems_keeps; eassumption.
  - eapply delete_inventoryItems_keeps; eassumption.
  - eapply delete_inventoryItemStockCounts_keeps; eassumption.
  - eapply update_users_permissionRole_keeps; eassumption.
  - eapply update_bomItems_keeps; eassumption.
  - eapply update_inventoryItems_locationId_keeps; eassumption.
Qed.

Lemma empty_db_constraints : constraints_hold empty_db.
Proof.
  constructor; simpl; try (constructor; fail); try (intros r []; fail).
  all: unfold fk_holds; simpl; intros k [].
Qed.

Lemma state_after_keeps :
  forall s db, constraints_hold db -> constraints_hold (state_after s db).
Proof.
  intros s db H. unfold state_after.
  destruct (exec s db) as [db' |] eqn:E; [| exact H].
  eapply exec_keeps; eassumption.
Qed.

Lemma reachable_constraints : forall db, reachable db -> constraints_hold db.
Proof.
  intros db Hr. induction Hr as [| s db Hr IH].
  - apply empty_db_constraints.
  - apply state_after_keeps. exact IH.
Qed.

Lemma run_statements_reachable :
  forall stmts db, reachable db -> reachable (run_statements stmts db).
Proof.
  induction stmts as [| s stmts IH]; intros db Hr; simpl.
  - exact Hr.
  - apply IH. apply reachable_exec. exact Hr.
Qed.

Lemma sample_db_reachable : reachable sample_db.
Proof.
  change sample_db with (run_statements sample_statements empty_db).
  apply run_statements_reachable. apply reachable_empty.
Qed.

Lemma sample_db_rows :
  List.length (db_inventoryItems sample_db) = 2
  /\ List.length (db_inventoryItemStockCounts sample_db) = 2
  /\ List.length (db_bomItems sample_db) = 1.
Proof. repeat split. Qed.

(** ** Primary keys identify rows *)

Section Identity.

Context {A K : Type} (key : A -> K) (eqb : K -> K -> bool).
Hypothesis eqb_eq : forall a b, eqb a b = true <-> a = b.

Lemma at_most_one_row_per_key :
  forall (rows : list A) (k : K),
    NoDup (map key rows) ->
    List.length (filter (fun r => eqb (key r) k) rows) <= 1.
Proof.
  induction rows as [| r rows IH]; intros k Hnd; simpl.
  - lia.
  - inversion Hnd as [| x xs Hnotin Hnd']; subst.
    destruct (eqb (key r) k) eqn:Hk; [| apply IH; exact Hnd'].
    apply eqb_eq in Hk. simpl.
    destruct (filter (fun r0 => eqb (key r0) k) rows) as [| r' rest] eqn:Hf.
    + simpl. lia.
    + exfalso. apply Hnotin.
      assert (Hin : In r' (filter (fun r0 => eqb (key r0) k) rows))
        by (rewrite Hf; left; reflexivity).
      apply filter_In in Hin. destruct Hin as [Hin Hk'].
      apply eqb_eq in Hk'. rewrite Hk, <- Hk'.
      apply in_map. exact Hin.
Qed.

Lemma key_identifies_row :
  forall (rows : list A) (a b : A),
    NoDup (map key rows) -> In a rows -> In b rows -> key a = key b -> a = b.
Proof.
  induction rows as [| r rows IH]; intros a b Hnd Ha Hb Hkey.
  - destruct Ha.
  - inversion Hnd as [| x xs Hnotin Hnd']; subst.
    destruct Ha as [Ha | Ha], Hb as [Hb | Hb].
    + congruence.
    + exfalso. apply Hnotin. subst a. rewrite Hkey. apply in_map. exact Hb.
    + exfalso. apply Hnotin. subst b. rewrite <- Hkey. apply in_map. exact Ha.
    + apply IH; assumption.
Qed.

End Identity.

(** ** Stock counts: one per item and date *)

Lemma duplicate_stock_count_refused :
  forall (v : inventoryItemStockCounts.values) (db : Db),
    In (inventoryItemStockCounts.v_itemId v, inventoryItemStockCounts.v_countDate v)
       (stockCount_keys db) ->
    insert_inventoryItemStockCounts v db
    = if int4 (inventoryItemStockCounts.v_count v)
      then Err unique_violation else Err numeric_value_out_of_range.
Proof.
  intros v db Hin. unfold insert_inventoryItemStockCounts. simpl.
  destruct (int4 _); [| reflexivity].
  apply stockCount_key_mem in Hin.
  unfold inventoryItemStockCounts.pk at 1. simpl. rewrite Hin. reflexivity.
Qed.

(** C4: in every state the statements reach, no two rows of the stock counts
    have the same item and date; and in any state, an INSERT for an item and
    date that already have a row is refused by the store, with the unique
    violation of the primary key when the count is an [integer], and the
    table is as before. *)
Theorem one_stock_count_per_item_and_date :
  forall (db : Db),
    reachable db ->
    NoDup (stockCount_keys db)
    /\ (forall (item : uuid) (day : date),
          List.length
            (filter (fun r => inventoryItemStockCounts.pk_eqb
                                (inventoryItemStockCounts.pk r) (item, day))
                    (db_inventoryItemStockCounts db)) <= 1)
    /\ (forall (v : inventoryItemStockCounts.values),
          In (inventoryItemStockCounts.v_itemId v,
              inventoryItemStockCounts.v_countDate v) (stockCount_keys db) ->
          (exists e,
              exec (InsertInventoryItemStockCounts v) db = Err e
              /\ error_kind e = ConstraintViolation
              /\ (int4 (inventoryItemStockCounts.v_count v) = true ->
                  e = unique_violation))
          /\ state_after (InsertInventoryItemStockCounts v) db = db).
Proof.
  intros db Hr.
  pose proof (pk_inventoryItemStockCounts db (reachable_constraints db Hr)) as Hnd.
  split; [exact Hnd | split].
  - intros item day.
    apply (at_most_one_row_per_key inventoryItemStockCounts.pk
             inventoryItemStockCounts.pk_eqb stockCount_pk_eqb_eq).
    exact Hnd.
  - intros v Hin.
    pose proof (duplicate_stock_count_refused v db Hin) as Hdup.
    unfold state_after. simpl. rewrite Hdup.
    destruct (int4 (inventoryItemStockCounts.v_count v)).
    + split; [| reflexivity].
      exists unique_violation. repeat split.
    + split; [| reflexivity].
      exists numeric_value_out_of_range. repeat split. discriminate.
Qed.

Lemma one_stock_count_per_item_and_date_witness :
  reachable sample_db
  /\ In (41%N, 19000%Z) (stockCount_keys sample_db)
  /\ state_after
       (InsertInventoryItemStockCounts
          (inventoryItemStockCounts.mkValues 41%N 7%Z 19000%Z None 1%N))
       sample_db = sample_db.
Proof.
  split; [exact sample_db_reachable | split].
  - simpl. left. reflexivity.
  - apply (one_stock_count_per_item_and_date sample_db sample_db_reachable).
    simpl. left. reflexivity.
Defined.

(** ** The bill of materials references item types *)

(** C9: in every state the statements reach, every row of the bill of
    materials has an [itemTypeId] and an [ingredientTypeId], and each is the
    [id] of one row of the item types and of no other. *)
Theorem bomItem_references_its_two_types :
  forall (db : Db) (r : BomItem),
    reachable db ->
    In r (db_bomItems db) ->
    (exists t, bomItems.itemTypeId r = Some (inventoryItemTypes.id t)
               /\ In t (db_inventoryItemTypes db)
               /\ forall t', In t' (db_inventoryItemTypes db) ->
                             inventoryItemTypes.id t' = inventoryItemTypes.id t ->
                             t' = t)
    /\ (exists t, bomItems.ingredientTypeId r = Some (inventoryItemTypes.id t)
                  /\ In t (db_inventoryItemTypes db)
                  /\ forall t', In t' (db_inventoryItemTypes db) ->
                                inventoryItemTypes.id t' = inventoryItemTypes.id t ->
                                t' = t).
Proof.
  intros db r Hr Hin.
  pose proof (reachable_constraints db Hr) as C.
  destruct (nn_bomItems db C r Hin) as [Hnn1 Hnn2].
  assert (Hresolve :
            forall col : BomItem -> option uuid,
              col r <> None ->
              fk_holds (map col (db_bomItems db)) (itemType_ids db) ->
              exists t, col r = Some (inventoryItemTypes.id t)
                        /\ In t (db_inventoryItemTypes db)
                        /\ forall t', In t' (db_inventoryItemTypes db) ->
                                      inventoryItemTypes.id t' = inventoryItemTypes.id t ->
                                      t' = t).
  { intros col Hnn Hfk.
    destruct (col r) as [k |] eqn:Hk; [| contradiction].
    assert (Hkin : In k (itemType_ids db)).
    { apply Hfk. rewrite <- Hk. apply in_map. exact Hin. }
    apply in_map_iff in Hkin. destruct Hkin as [t [Ht Htin]].
    subst k. exists t. split; [reflexivity | split; [exact Htin |]].
    intros t' Ht'in Hid.
    apply (key_identifies_row inventoryItemTypes.id (db_inventoryItemTypes db));
      [apply (pk_inventoryItemTypes db C) | assumption | assumption | assumption]. }
  split.
  - apply Hresolve; [exact Hnn1 | apply (fk_bom_itemType db C)].
  - apply Hresolve; [exact Hnn2 | apply (fk_bom_ingredientType db C)].
Qed.

Lemma bomItem_references_its_two_types_witness :
  reachable sample_db
  /\ In (bomItems.mk (Some 21%N) (Some 20%N) 8%Z false) (db_bomItems sample_db)
  /\ exists t, Some 21%N = Some (inventoryItemTypes.id t)
               /\ In t (db_inventoryItemTypes sample_db).
Proof.
  split; [exact sample_db_reachable | split].
  - simpl. left. reflexivity.
  - destruct (bomItem_references_its_two_types sample_db
                (bomItems.mk (Some 21%N) (Some 20%N) 8%Z false)
                sample_db_reachable (or_introl eq_refl)) as [[t [H1 [H2 _]]] _].
    exists t. split; assumption.
Defined.

(** An INSERT into the bill of materials without one of the two types is
    refused: the primary key makes both columns NOT NULL. *)
Lemma bomItem_without_type_refused :
  forall (v : bomItems.values) (db : Db),
    int4 (bomItems.v_quantity v) = true ->
    bomItems.v_itemTypeId v = None \/ bomItems.v_ingredientTypeId v = None ->
    insert_bomItems v db = Err not_null_violation.
Proof.
  intros v db Hq Hnull. unfold insert_bomItems. simpl. rewrite Hq.
  destruct Hnull as [H | H]; rewrite H; simpl.
  - reflexivity.
  - rewrite andb_false_r. reflexivity.
Qed.

(** ** The quantity on hand *)

Lemma latest_In :
  forall rows m, latest rows = Some m -> In m rows.
Proof.
  induction rows as [| r rows IH]; intros m H; simpl in H.
  - discriminate.
  - destruct (latest rows) as [m' |].
    + destruct (Z.ltb _ _); inversion H; subst.
      * right. apply IH. reflexivity.
      * left. reflexivity.
    + inversion H. left. reflexivity.
Qed.

Lemma latest_greatest :
  forall rows m,
    latest rows = Some m ->
    forall r, In r rows ->
      (inventoryItemStockCounts.countDate r
       <= inventoryItemStockCounts.countDate m)%Z.
Proof.
  induction rows as [| r0 rows IH]; intros m H r Hin; simpl in H.
  - destruct Hin.
  - destruct (latest rows) as [m' |] eqn:Hl.
    + destruct (Z.ltb _ _) eqn:Hlt; inversion H; subst.
      * apply Z.ltb_lt in Hlt. destruct Hin as [Heq | Hin].
        -- subst r. lia.
        -- apply (IH m eq_refl r Hin).
      * apply Z.ltb_ge in Hlt. destruct Hin as [Heq | Hin].
        -- subst r. lia.
        -- pose proof (IH m' eq_refl r Hin). lia.
    + inversion H; subst. destruct Hin as [Heq | Hin].
      * subst r. lia.
      * destruct rows; [destruct Hin | simpl in Hl].
        destruct (latest rows); [destruct (Z.ltb _ _) |]; discriminate.
Qed.

Lemma latest_none : forall rows, latest rows = None <-> rows = [].
Proof.
  intros [| r rows]; simpl; split; intro H; try reflexivity; try discriminate.
  destruct (latest rows); [destruct (Z.ltb _ _) |]; discriminate.
Qed.

(** C3: [currentQuantity] is 1 for an item that is not countable, whatever
    rows the stock counts hold; for a countable item with at least one row,
    it is the [count] of a row of the item with the greatest [countDate], and
    of any such row when the item has one row per date; for a countable item
    without rows, it is the value [unknown]. *)
Theorem currentQuantity_cases :
  forall (db : Db) (item : InventoryItem),
    (inventoryItems.is_countable item = false ->
     currentQuantity db item = known 1%Z)
    /\ (inventoryItems.is_countable item = true ->
        NoDup (stockCount_keys db) ->
        forall r,
          In r (db_inventoryItemStockCounts db) ->
          inventoryItemStockCounts.itemId r = inventoryItems.id item ->
          (forall r',
              In r' (db_inventoryItemStockCounts db) ->
              inventoryItemStockCounts.itemId r' = inventoryItems.id item ->
              (inventoryItemStockCounts.countDate r'
               <= inventoryItemStockCounts.countDate r)%Z) ->
          currentQuantity db item = known (inventoryItemStockCounts.count r))
    /\ (inventoryItems.is_countable item = true ->
        (exists r0, In r0 (db_inventoryItemStockCounts db)
                    /\ inventoryItemStockCounts.itemId r0 = inventoryItems.id item) ->
        exists r,
          In r (db_inventoryItemStockCounts db)
          /\ inventoryItemStockCounts.itemId r = inventoryItems.id item
          /\ (forall r',
                 In r' (db_inventoryItemStockCounts db) ->
                 inventoryItemStockCounts.itemId r' = inventoryItems.id item ->
                 (inventoryItemStockCounts.countDate r'
                  <= inventoryItemStockCounts.countDate r)%Z)
          /\ currentQuantity db item = known (inventoryItemStockCounts.count r))
    /\ (inventoryItems.is_countable item = true ->
        (forall r, In r (db_inventoryItemStockCounts db) ->
                   inventoryItemStockCounts.itemId r <> inventoryItems.id item) ->
        currentQuantity db item = unknown).
Proof.
  intros db item. unfold currentQuantity. split; [| split; [| split]].
  - intro Hc. rewrite Hc. reflexivity.
  - intros Hc Hnd r Hin Hitem Hmax. rewrite Hc. simpl.
    assert (Hr : In r (counts_of db item)).
    { apply filter_In. split; [exact Hin | apply N.eqb_eq; exact Hitem]. }
    destruct (latest (counts_of db item)) as [m |] eqn:Hl.
    + pose proof (latest_greatest _ _ Hl r Hr) as Hle.
      apply latest_In in Hl. apply filter_In in Hl. destruct Hl as [Hmin Hmitem].
      apply N.eqb_eq in Hmitem.
      pose proof (Hmax m Hmin Hmitem) as Hge.
      assert (Heq : m = r).
      { apply (key_identifies_row inventoryItemStockCounts.pk
                 (db_inventoryItemStockCounts db)); try assumption.
        unfold inventoryItemStockCounts.pk. f_equal; [congruence | lia]. }
      subst m. reflexivity.
    + apply latest_none in Hl. rewrite Hl in Hr. destruct Hr.
  - intros Hc [r0 [Hin0 Hitem0]]. rewrite Hc. simpl.
    assert (Hr0 : In r0 (counts_of db item)).
    { apply filter_In. split; [exact Hin0 | apply N.eqb_eq; exact Hitem0]. }
    destruct (latest (counts_of db item)) as [m |] eqn:Hl.
    + exists m.
      pose proof (latest_In _ _ Hl) as Hm. apply filter_In in Hm.
      destruct Hm as [Hmin Hmitem]. apply N.eqb_eq in Hmitem.
      repeat split; try assumption.
      intros r' Hin' Hitem'. apply (latest_greatest _ _ Hl).
      apply filter_In. split; [exact Hin' | apply N.eqb_eq; exact Hitem'].
    + apply latest_none in Hl. rewrite Hl in Hr0. destruct Hr0.
  - intros Hc Hnone. rewrite Hc. simpl.
    assert (Hempty : counts_of db item = []).
    { unfold counts_of.
      induction (db_inventoryItemStockCounts db) as [| r rows IH]; simpl.
      - reflexivity.
      - destruct (N.eqb _ _) eqn:Heq.
        + apply N.eqb_eq in Heq. exfalso.
          apply (Hnone r); [left; reflexivity | exact Heq].
        + apply IH. intros r' Hin. apply Hnone. right. exact Hin. }
    rewrite Hempty. reflexivity.
Qed.

Lemma currentQuantity_cases_witness :
  currentQuantity sample_db sample_shelf = known 1%Z
  /\ currentQuantity sample_db sample_box = known 90%Z
  /\ currentQuantity (with_inventoryItemStockCounts sample_db []) sample_box
     = unknown.
Proof.
  split; [| split].
  - apply (currentQuantity_cases sample_db sample_shelf). reflexivity.
  - apply (proj1 (proj2 (currentQuantity_cases sample_db sample_box))
             eq_refl
             (pk_inventoryItemStockCounts sample_db
                (reachable_constraints sample_db sample_db_reachable))
             sample_count).
    + simpl. right. left. reflexivity.
    + reflexivity.
    + intros r' [Hr' | [Hr' | []]] _; subst r'; simpl; lia.
  - apply (proj2 (proj2 (proj2 (currentQuantity_cases
             (with_inventoryItemStockCounts sample_db []) sample_box)))).
    + reflexivity.
    + intros r [].
Defined.

(** ** The operations of the schema layer *)

Lemma run_operations_served :
  forall ops db, served db -> served (run_operations ops db).
Proof.
  induction ops as [| op ops IH]; intros db Hs; simpl.
  - exact Hs.
  - apply IH. apply served_run. exact Hs.
Qed.

Lemma sample_db_served : served sample_db.
Proof.
  change sample_db with (run_operations sample_operations empty_db).
  apply run_operations_served. apply served_empty.
Qed.

Lemma surface_Ok :
  forall {A : Type} (r : Result PgError A) (a : A), surface r = Ok a -> r = Ok a.
Proof. intros A [x | e] a H; simpl in H; congruence. Qed.

(** An operation that succeeds has run one statement. *)
Lemma run_is_statement :
  forall op db db', run op db = Ok db' -> exists s, exec s db = Ok db'.
Proof.
  intros op db db' H. destruct op; simpl in H.
  - unfold createInventoryItem in H.
    destruct (negb _); [discriminate |].
    destruct (inventoryItems.locationId _).
    + destruct (_ || _); [discriminate |].
      exists (InsertInventoryItems rnd v). apply surface_Ok. exact H.
    + exists (InsertInventoryItems rnd v). apply surface_Ok. exact H.
  - unfold setItemLocation in H. destruct location as [l |].
    + destruct (_ || _); [discriminate |].
      exists (UpdateInventoryItemsLocationId item (Some l)). apply surface_Ok. exact H.
    + exists (UpdateInventoryItemsLocationId item None). apply surface_Ok. exact H.
  - unfold recordStockCount in H. destruct (_ && _); [discriminate |].
    eexists (InsertInventoryItemStockCounts _). apply surface_Ok. exact H.
  - unfold upsertBomItem in H. destruct (_ || _); [discriminate |].
    destruct (existsb _ _).
    + eexists (UpdateBomItems _ _ _). apply surface_Ok. exact H.
    + eexists (InsertBomItems _). apply surface_Ok. exact H.
  - exists (InsertUsers rnd v). apply surface_Ok. exact H.
  - exists (UpdateUsersPermissionRole k role). apply surface_Ok. exact H.
  - exists (InsertOrganisations rnd v). apply surface_Ok. exact H.
  - exists (DeleteOrganisations k). apply surface_Ok. exact H.
  - exists (InsertInventoryItemTypes rnd v). apply surface_Ok. exact H.
  - exists (DeleteInventoryItemTypes k). apply surface_Ok. exact H.
  - exists (InsertInventoryItemTypeSources rnd v). apply surface_Ok. exact H.
Qed.

Lemma served_reachable : forall db, served db -> reachable db.
Proof.
  intros db Hs. induction Hs as [| op db Hs IH].
  - apply reachable_empty.
  - unfold store_after. destruct (run op db) as [db' |] eqn:E; [| exact IH].
    destruct (run_is_statement op db db' E) as [s Hs'].
    replace db' with (state_after s db).
    + apply reachable_exec. exact IH.
    + unfold state_after. rewrite Hs'. reflexivity.
Qed.

Lemma served_constraints : forall db, served db -> constraints_hold db.
Proof. intros db Hs. apply reachable_constraints, served_reachable, Hs. Qed.

(** ** Administrative stock counts *)

Lemma PermissionRole_eqb_eq :
  forall a b, PermissionRole_eqb a b = true <-> a = b.
Proof. intros [] []; simpl; split; intro H; try reflexivity; discriminate. Qed.

(** C5: an administrative [recordStockCount] by a user whose role is not
    [admin] fails with [PermissionDenied] and the store is as before; by a
    user whose role is [admin] it succeeds and adds the row, when the count
    is an [integer], the item and the user exist, and the item has no count
    for that date yet. *)
Theorem administrative_count_needs_admin :
  forall (item : uuid) (count : integer) (countDate : date) (actingUser : User)
         (db : Db),
    (users.permissionRole actingUser <> admin ->
     recordStockCount item count countDate true actingUser db = Err PermissionDenied
     /\ store_after (RecordStockCount item count countDate true actingUser) db = db)
    /\ (users.permissionRole actingUser = admin ->
        int4 count = true ->
        In item (item_ids db) ->
        In (users.id actingUser) (user_ids db) ->
        ~ In (item, countDate) (stockCount_keys db) ->
        recordStockCount item count countDate true actingUser db
        = Ok (with_inventoryItemStockCounts db
                (db_inventoryItemStockCounts db
                 ++ [inventoryItemStockCounts.mk item count countDate true
                       (users.id actingUser)]))).
Proof.
  intros item count countDate actingUser db. split.
  - intro Hrole.
    assert (E : recordStockCount item count countDate true actingUser db
                = Err PermissionDenied).
    { unfold recordStockCount.
      destruct (PermissionRole_eqb (users.permissionRole actingUser) admin) eqn:Hr.
      - apply PermissionRole_eqb_eq in Hr. contradiction.
      - reflexivity. }
    split; [exact E |].
    unfold store_after. simpl. rewrite E. reflexivity.
  - intros Hrole Hcount Hitem Huser Hfresh.
    unfold recordStockCount. rewrite Hrole. simpl.
    unfold insert_inventoryItemStockCounts. simpl. rewrite Hcount.
    unfold inventoryItemStockCounts.pk at 1. simpl.
    destruct (existsb _ (stockCount_keys db)) eqn:Hdup.
    + apply stockCount_key_mem in Hdup. contradiction.
    + simpl. apply mem_uuid_In in Hitem. apply mem_uuid_In in Huser.
      rewrite Hitem, Huser. reflexivity.
Qed.

Lemma administrative_count_needs_admin_witness :
  recordStockCount 41%N 85%Z 19020%Z true alice sample_db = Err PermissionDenied
  /\ exists db',
       recordStockCount 41%N 85%Z 19020%Z true root_user sample_db = Ok db'
       /\ List.length (db_inventoryItemStockCounts db') = 3.
Proof.
  split.
  - apply (administrative_count_needs_admin 41%N 85%Z 19020%Z alice sample_db).
    simpl. discriminate.
  - eexists. split.
    + apply (administrative_count_needs_admin 41%N 85%Z 19020%Z root_user sample_db).
      * reflexivity.
      * reflexivity.
      * simpl. right. left. reflexivity.
      * simpl. right. left. reflexivity.
      * simpl. intros [H | [H | []]]; inversion H.
    + reflexivity.
Defined.

(** The table itself takes an administrative count from any user: the rule
    is not a constraint of the schema. *)
Lemma administrative_flag_unconstrained :
  exists db',
    insert_inventoryItemStockCounts
      (inventoryItemStockCounts.mkValues 41%N 85%Z 19020%Z (Some true) 1%N)
      sample_db = Ok db'.
Proof. eexists. reflexivity. Qed.

(** ** The bill of materials has no self-loop *)

Lemma upsertBomItem_refuses :
  forall itemType ingredientType quantity reclaimable db,
    itemType = ingredientType \/ (quantity <= 0)%Z ->
    upsertBomItem itemType ingredientType quantity reclaimable db
    = Err ConstraintViolation.
Proof.
  intros a b q rc db H. unfold upsertBomItem.
  assert (E : N.eqb a b || (q <=? 0)%Z = true).
  { apply orb_true_iff. destruct H as [H | H].
    - left. apply N.eqb_eq. exact H.
    - right. apply Z.leb_le. exact H. }
  rewrite E. reflexivity.
Qed.

Lemma upsertBomItem_keeps_edges_proper :
  forall a b q rc db db',
    (forall r, In r (db_bomItems db) -> proper_edge r) ->
    upsertBomItem a b q rc db = Ok db' ->
    forall r, In r (db_bomItems db') -> proper_edge r.
Proof.
  intros a b q rc db db' Hok E. unfold upsertBomItem in E.
  destruct (N.eqb a b || (q <=? 0)%Z) eqn:Hguard; [discriminate |].
  apply orb_false_iff in Hguard. destruct Hguard as [Hab Hq].
  apply N.eqb_neq in Hab. apply Z.leb_gt in Hq.
  destruct (existsb _ _).
  - apply surface_Ok in E. unfold update_bomItems in E. passed E. committed E.
    simpl. intros r Hin. apply in_map_iff in Hin. destruct Hin as [r0 [Hr0 Hin]].
    specialize (Hok r0 Hin). destruct Hok as [Hne Hpos].
    destruct (bomItems.pk_eqb _ _); subst r.
    + split; simpl; assumption.
    + split; assumption.
  - apply surface_Ok in E. unfold insert_bomItems in E.
    passed E. passed E. passed E. passed E. committed E.
    simpl. intros r Hin. apply in_app_or in Hin. destruct Hin as [Hin | [Hr | []]].
    + apply Hok. exact Hin.
    + subst r. split; simpl; [congruence | exact Hq].
Qed.

Ltac settle H :=
  try apply surface_Ok in H; repeat passed H; committed H; reflexivity.

(** No operation but [upsertBomItem] writes the bill of materials. *)
Lemma run_bomItems :
  forall op db db',
    run op db = Ok db' ->
    (exists a b q rc, op = UpsertBomItem a b q rc)
    \/ db_bomItems db' = db_bomItems db.
Proof.
  intros op db db' H. destruct op; simpl in H;
    try (left; do 4 eexists; reflexivity); right.
  - unfold createInventoryItem in H.
    destruct (negb _); [discriminate |].
    assert (E : insert_inventoryItems rnd v db = Ok db').
    { destruct (inventoryItems.locationId _).
      - destruct (_ || _); [discriminate | apply surface_Ok; exact H].
      - apply surface_Ok; exact H. }
    unfold insert_inventoryItems in E. passed E. passed E. passed E. committed E.
    reflexivity.
  - unfold setItemLocation in H.
    assert (E : exists l, update_inventoryItems_locationId item l db = Ok db').
    { destruct location as [l |].
      - destruct (_ || _); [discriminate |]. eexists. apply surface_Ok. exact H.
      - eexists. apply surface_Ok. exact H. }
    destruct E as [l E]. unfold update_inventoryItems_locationId in E.
    passed E. committed E. reflexivity.
  - unfold recordStockCount in H. destruct (_ && _); [discriminate |].
    apply surface_Ok in H. unfold insert_inventoryItemStockCounts in H.
    passed H. passed H. passed H. committed H. reflexivity.
  - unfold insert_users in H. settle H.
  - unfold update_users_permissionRole in H. settle H.
  - unfold insert_organisations in H. settle H.
  - unfold delete_organisations in H. settle H.
  - unfold insert_inventoryItemTypes in H. settle H.
  - unfold delete_inventoryItemTypes in H. settle H.
  - unfold insert_inventoryItemTypeSources in H. settle H.
Qed.

Lemma served_edges_proper :
  forall db, served db -> forall r, In r (db_bomItems db) -> proper_edge r.
Proof.
  intros db Hs. induction Hs as [| op db Hs IH].
  - intros r [].
  - unfold store_after. destruct (run op db) as [db' |] eqn:E; [| exact IH].
    destruct (run_bomItems op db db' E) as [[a [b [q [rc Hop]]]] | Hsame].
    + subst op. simpl in E.
      apply (upsertBomItem_keeps_edges_proper a b q rc db db' IH E).
    + rewrite Hsame. exact IH.
Qed.

(** C7: [upsertBomItem] fails with [ConstraintViolation] when the item type
    is its own ingredient and when the quantity is not positive, and the store
    is as before; so in every state the operations reach, no row of the bill
    of materials is an edge from a type to itself, and every quantity is
    positive. *)
Theorem upsertBomItem_rejects_self_loop_and_non_positive :
  (forall (itemType ingredientType : uuid) (quantity : integer)
          (reclaimable : bool) (db : Db),
      itemType = ingredientType \/ (quantity <= 0)%Z ->
      upsertBomItem itemType ingredientType quantity reclaimable db
      = Err ConstraintViolation
      /\ store_after (UpsertBomItem itemType ingredientType quantity reclaimable) db
         = db)
  /\ (forall (db : Db),
        served db ->
        forall r, In r (db_bomItems db) ->
          (forall T, ~ (bomItems.itemTypeId r = Some T
                        /\ bomItems.ingredientTypeId r = Some T))
          /\ (0 < bomItems.quantity r)%Z).
Proof.
  split.
  - intros a b q rc db H.
    pose proof (upsertBomItem_refuses a b q rc db H) as E.
    split; [exact E |].
    unfold store_after. simpl. rewrite E. reflexivity.
  - intros db Hs r Hin.
    destruct (served_edges_proper db Hs r Hin) as [Hne Hpos].
    split; [| exact Hpos].
    intros T [H1 H2]. apply Hne. rewrite H1, H2. reflexivity.
Qed.

Lemma upsertBomItem_rejects_self_loop_and_non_positive_witness :
  upsertBomItem 20%N 20%N 3%Z false sample_db = Err ConstraintViolation
  /\ upsertBomItem 21%N 20%N 0%Z false sample_db = Err ConstraintViolation
  /\ served sample_db
  /\ (0 < bomItems.quantity (bomItems.mk (Some 21%N) (Some 20%N) 8%Z false))%Z.
Proof.
  destruct upsertBomItem_rejects_self_loop_and_non_positive as [Hfail Hinv].
  split; [| split; [| split]].
  - apply (Hfail 20%N 20%N 3%Z false sample_db). left. reflexivity.
  - apply (Hfail 21%N 20%N 0%Z false sample_db). right. lia.
  - exact sample_db_served.
  - apply (Hinv sample_db sample_db_served
             (bomItems.mk (Some 21%N) (Some 20%N) 8%Z false)).
    simpl. left. reflexivity.
Defined.

(** The table itself takes a self-loop and a quantity that is not positive:
    neither rule is a constraint of the schema. *)
Lemma bomItems_self_loop_unconstrained :
  exists db',
    insert_bomItems (bomItems.mkValues (Some 20%N) (Some 20%N) 0%Z None) sample_db
    = Ok db'.
Proof. eexists. reflexivity. Qed.

(** ** The location graph *)

Lemma item_by_id_In :
  forall db i r,
    item_by_id db i = Some r ->
    In r (db_inventoryItems db) /\ inventoryItems.id r = i.
Proof.
  intros db i r H. unfold item_by_id in H. apply find_some in H.
  destruct H as [Hin Heq]. apply N.eqb_eq in Heq. split; assumption.
Qed.

Lemma item_by_id_of_row :
  forall db r,
    NoDup (item_ids db) -> In r (db_inventoryItems db) ->
    item_by_id db (inventoryItems.id r) = Some r.
Proof.
  intros db r Hnd Hin. destruct (item_by_id db (inventoryItems.id r)) as [r' |] eqn:E.
  - apply item_by_id_In in E. destruct E as [Hin' Hid]. f_equal.
    apply (key_identifies_row inventoryItems.id (db_inventoryItems db)); assumption.
  - unfold item_by_id in E.
    pose proof (find_none _ _ E r Hin) as Hf. simpl in Hf.
    rewrite N.eqb_refl in Hf. discriminate.
Qed.

(** With the primary key in force, the edges of the graph are what the
    lookup by [id] gives. *)
Lemma located_in_lookup :
  forall db i j,
    NoDup (item_ids db) -> (located_in db i j <-> location_of db i = Some j).
Proof.
  intros db i j Hnd. unfold located_in, location_of. split.
  - intros [r [Hin [Hid Hloc]]]. subst i.
    rewrite (item_by_id_of_row db r Hnd Hin). exact Hloc.
  - intro H. destruct (item_by_id db i) as [r |] eqn:E; [| discriminate].
    apply item_by_id_In in E. destruct E as [Hin Hid].
    exists r. repeat split; assumption.
Qed.

Lemma located_inside_snoc :
  forall db a b c,
    located_inside db a b -> located_in db b c -> located_inside db a c.
Proof.
  intros db a b c Hab Hbc. induction Hab as [i j Hij | i k j Hik Hkj IH].
  - eapply inside_further; [exact Hij | apply inside_here; exact Hbc].
  - eapply inside_further; [exact Hik | apply IH; exact Hbc].
Qed.

Lemma grounded_not_inside_itself :
  forall db i,
    NoDup (item_ids db) -> grounded db i -> ~ located_inside db i i.
Proof.
  intros db i Hnd Hg. induction Hg as [i Hroot | i p Hloc Hg IH]; intro Hcyc.
  - inversion Hcyc as [a b Hin | a k b Hin Hrest]; subst;
      apply (located_in_lookup db _ _ Hnd) in Hin; congruence.
  - apply IH.
    inversion Hcyc as [a b Hin | a k b Hin Hrest]; subst.
    + pose proof Hin as Hin'.
      apply (located_in_lookup db _ _ Hnd) in Hin'.
      assert (p = i) by congruence. subst p. exact Hcyc.
    + pose proof Hin as Hin'.
      apply (located_in_lookup db _ _ Hnd) in Hin'.
      assert (k = p) by congruence. subst k.
      apply (located_inside_snoc db p i p Hrest Hin).
Qed.

(** The walk answers [true] whenever there is something to find, however few
    steps it is given. *)
Lemma inside_or_same_finds :
  forall db item,
    NoDup (item_ids db) ->
    forall steps from,
      from = item \/ located_inside db from item ->
      inside_or_same steps db item from = true.
Proof.
  intros db item Hnd. induction steps as [| n IH]; intros from H.
  - simpl. destruct (N.eqb from item); reflexivity.
  - simpl. destruct (N.eqb from item) eqn:Heq; [reflexivity |].
    apply N.eqb_neq in Heq. destruct H as [H | H]; [contradiction |].
    inversion H as [a b Hin | a k b Hin Hrest]; subst;
      apply (located_in_lookup db _ _ Hnd) in Hin; rewrite Hin; apply IH.
    + left. reflexivity.
    + right. exact Hrest.
Qed.

(** When the walk answers [false], it has reached an item without location
    and has not met [item]. *)
Lemma inside_or_same_clear :
  forall db item steps from,
    inside_or_same steps db item from = false -> clear_of db item from.
Proof.
  intros db item. induction steps as [| n IH]; intros from H; simpl in H.
  - destruct (N.eqb from item); discriminate.
  - destruct (N.eqb from item) eqn:Heq; [discriminate |].
    apply N.eqb_neq in Heq.
    destruct (location_of db from) as [p |] eqn:Hloc.
    + eapply clear_step; [exact Heq | exact Hloc | apply IH; exact H].
    + apply clear_root; assumption.
Qed.

Lemma location_of_same_items :
  forall db db' i,
    db_inventoryItems db' = db_inventoryItems db ->
    location_of db' i = location_of db i.
Proof.
  intros db db' i H. unfold location_of, item_by_id. rewrite H. reflexivity.
Qed.

Lemma grounded_same_items :
  forall db db' i,
    db_inventoryItems db' = db_inventoryItems db ->
    grounded db i -> grounded db' i.
Proof.
  intros db db' i H Hg. induction Hg as [i Hroot | i p Hloc Hg IH].
  - apply grounded_root. rewrite (location_of_same_items db db' i H). exact Hroot.
  - eapply grounded_step; [| exact IH].
    rewrite (location_of_same_items db db' i H). exact Hloc.
Qed.

(** The lookup after [update_inventoryItems_locationId k l]. *)
Lemma location_of_update :
  forall k l db x,
    location_of
      (with_inventoryItems db
         (map (fun r => if N.eqb (inventoryItems.id r) k
                        then inventoryItems.set_locationId l r else r)
              (db_inventoryItems db))) x
    = if N.eqb x k
      then (if mem_uuid k (item_ids db) then l else None)
      else location_of db x.
Proof.
  intros k l db x. unfold location_of, item_by_id, item_ids, mem_uuid. simpl.
  induction (db_inventoryItems db) as [| r rows IH]; simpl.
  - destruct (N.eqb x k); reflexivity.
  - destruct (N.eqb (inventoryItems.id r) k) eqn:Hk; simpl.
    + apply N.eqb_eq in Hk. rewrite Hk. rewrite (N.eqb_sym k x).
      destruct (N.eqb x k) eqn:Hx.
      * rewrite N.eqb_refl. reflexivity.
      * rewrite IH. reflexivity.
    + destruct (N.eqb (inventoryItems.id r) x) eqn:Hx.
      * apply N.eqb_eq in Hx. subst x. rewrite Hk. reflexivity.
      * rewrite IH. destruct (N.eqb x k) eqn:Hxk; [| reflexivity].
        apply N.eqb_eq in Hxk. subst x. rewrite N.eqb_sym, Hk. reflexivity.
Qed.

(** The lookup after the INSERT of a row with a fresh [id]. *)
Lemma location_of_insert :
  forall db r x,
    ~ In (inventoryItems.id r) (item_ids db) ->
    location_of (with_inventoryItems db (db_inventoryItems db ++ [r])) x
    = if N.eqb x (inventoryItems.id r)
      then inventoryItems.locationId r
      else location_of db x.
Proof.
  intros db r x. unfold location_of, item_by_id, item_ids. simpl.
  induction (db_inventoryItems db) as [| r0 rows IH]; simpl; intro Hfresh.
  - rewrite (N.eqb_sym x). destruct (N.eqb (inventoryItems.id r) x); reflexivity.
  - destruct (N.eqb (inventoryItems.id r0) x) eqn:Hx.
    + apply N.eqb_eq in Hx. subst x.
      destruct (N.eqb (inventoryItems.id r0) (inventoryItems.id r)) eqn:Hr.
      * apply N.eqb_eq in Hr. exfalso. apply Hfresh. left. exact Hr.
      * reflexivity.
    + apply IH. intro Hin. apply Hfresh. right. exact Hin.
Qed.

Lemma grounded_after_update :
  forall k l db db',
    update_inventoryItems_locationId k l db = Ok db' ->
    (forall p, l = Some p -> clear_of db k p) ->
    (forall x, grounded db x) ->
    forall x, grounded db' x.
Proof.
  intros k l db db' E Hclear Hall.
  unfold update_inventoryItems_locationId in E. passed E. committed E.
  assert (Hother : forall x, x <> k ->
            location_of
              (with_inventoryItems db
                 (map (fun r => if N.eqb (inventoryItems.id r) k
                                then inventoryItems.set_locationId l r else r)
                      (db_inventoryItems db))) x
            = location_of db x).
  { intros x Hx. rewrite location_of_update.
    apply N.eqb_neq in Hx. rewrite Hx. reflexivity. }
  assert (Hpath : forall p, clear_of db k p ->
            grounded
              (with_inventoryItems db
                 (map (fun r => if N.eqb (inventoryItems.id r) k
                                then inventoryItems.set_locationId l r else r)
                      (db_inventoryItems db))) p).
  { intros p Hp. induction Hp as [x Hx Hroot | x q Hx Hloc Hq IH].
    - apply grounded_root. rewrite (Hother x Hx). exact Hroot.
    - eapply grounded_step; [| exact IH]. rewrite (Hother x Hx). exact Hloc. }
  assert (Hk : grounded
              (with_inventoryItems db
                 (map (fun r => if N.eqb (inventoryItems.id r) k
                                then inventoryItems.set_locationId l r else r)
                      (db_inventoryItems db))) k).
  { destruct (mem_uuid k (item_ids db)) eqn:Hmem.
    - destruct l as [p |].
      + eapply grounded_step.
        * rewrite location_of_update, N.eqb_refl, Hmem. reflexivity.
        * apply Hpath. apply Hclear. reflexivity.
      + apply grounded_root. rewrite location_of_update, N.eqb_refl, Hmem.
        reflexivity.
    - apply grounded_root. rewrite location_of_update, N.eqb_refl, Hmem.
      reflexivity. }
  intro x. specialize (Hall x).
  induction Hall as [x Hroot | x p Hloc Hg IH].
  - destruct (N.eq_dec x k) as [Heq | Hne]; [subst x; exact Hk |].
    apply grounded_root. rewrite (Hother x Hne). exact Hroot.
  - destruct (N.eq_dec x k) as [Heq | Hne]; [subst x; exact Hk |].
    eapply grounded_step; [| exact IH]. rewrite (Hother x Hne). exact Hloc.
Qed.

Lemma grounded_after_insert :
  forall rnd v db db',
    constraints_hold db ->
    insert_inventoryItems rnd v db = Ok db' ->
    (forall l, inventoryItems.v_locationId v = Some l -> In l (item_ids db)) ->
    (forall x, grounded db x) ->
    forall x, grounded db' x.
Proof.
  intros rnd v db db' C E Hloc Hall.
  unfold insert_inventoryItems in E. passed E. passed E. passed E. committed E.
  apply negb_true_iff, mem_uuid_not_In in Hcheck0.
  set (r := inventoryItems.with_defaults rnd v) in *.
  assert (Hold : forall x, x <> inventoryItems.id r -> grounded db x ->
            grounded (with_inventoryItems db (db_inventoryItems db ++ [r])) x).
  { intros x Hx Hg. induction Hg as [x Hroot | x p Hxp Hg IH].
    - apply grounded_root. rewrite (location_of_insert db r x Hcheck0).
      apply N.eqb_neq in Hx. rewrite Hx. exact Hroot.
    - eapply grounded_step.
      + rewrite (location_of_insert db r x Hcheck0).
        apply N.eqb_neq in Hx. rewrite Hx. exact Hxp.
      + apply IH. intro Hp. subst p. apply Hcheck0.
        apply (fk_items_location db C).
        apply (located_in_lookup db x _ (pk_inventoryItems db C)) in Hxp.
        destruct Hxp as [r0 [Hin [_ Hl]]].
        rewrite <- Hl. apply in_map. exact Hin. }
  intro x. destruct (N.eq_dec x (inventoryItems.id r)) as [Heq | Hne].
  - subst x. destruct (inventoryItems.locationId r) as [l |] eqn:Hl.
    + eapply grounded_step.
      * rewrite (location_of_insert db r _ Hcheck0), N.eqb_refl. exact Hl.
      * apply Hold; [| apply Hall].
        intro Heq. subst l. apply Hcheck0. apply Hloc. exact Hl.
    + apply grounded_root.
      rewrite (location_of_insert db r _ Hcheck0), N.eqb_refl. exact Hl.
  - apply Hold; [exact Hne | apply Hall].
Qed.

Ltac same_items H db :=
  try apply surface_Ok in H; repeat passed H; committed H;
  intro x; apply (grounded_same_items db); [reflexivity | auto].

Lemma run_keeps_grounded :
  forall op db db',
    constraints_hold db ->
    run op db = Ok db' ->
    (forall x, grounded db x) ->
    forall x, grounded db' x.
Proof.
  intros op db db' C H Hall. destruct op; simpl in H.
  - unfold createInventoryItem in H.
    destruct (negb _); [discriminate |].
    destruct (inventoryItems.locationId (inventoryItems.with_defaults rnd v))
      as [l |] eqn:Hl; simpl in Hl.
    + destruct (negb (mem_uuid l (item_ids db)) || _) eqn:Hguard; [discriminate |].
      apply orb_false_iff in Hguard. destruct Hguard as [Hexists _].
      apply negb_false_iff, mem_uuid_In in Hexists.
      apply surface_Ok in H.
      apply (grounded_after_insert rnd v db db' C H); [| exact Hall].
      intros l' Hl'. rewrite Hl in Hl'. inversion Hl'. subst l'. exact Hexists.
    + apply surface_Ok in H.
      apply (grounded_after_insert rnd v db db' C H); [| exact Hall].
      intros l' Hl'. rewrite Hl in Hl'. discriminate.
  - unfold setItemLocation in H. destruct location as [l |].
    + destruct (negb (mem_uuid l (item_ids db)) || would_cycle db item l)
        eqn:Hguard; [discriminate |].
      apply orb_false_iff in Hguard. destruct Hguard as [_ Hwalk].
      apply surface_Ok in H.
      apply (grounded_after_update item (Some l) db db' H); [| exact Hall].
      intros p Hp. inversion Hp. subst p.
      apply (inside_or_same_clear db item _ l Hwalk).
    + apply surface_Ok in H.
      apply (grounded_after_update item None db db' H); [| exact Hall].
      intros p Hp. discriminate.
  - unfold recordStockCount in H. destruct (_ && _); [discriminate |].
    unfold insert_inventoryItemStockCounts in H. same_items H db.
  - unfold upsertBomItem in H. destruct (_ || _); [discriminate |].
    destruct (existsb _ _).
    + unfold update_bomItems in H. same_items H db.
    + unfold insert_bomItems in H. same_items H db.
  - unfold insert_users in H. same_items H db.
  - unfold update_users_permissionRole in H. same_items H db.
  - unfold insert_organisations in H. same_items H db.
  - unfold delete_organisations in H. same_items H db.
  - unfold insert_inventoryItemTypes in H. same_items H db.
  - unfold delete_inventoryItemTypes in H. same_items H db.
  - unfold insert_inventoryItemTypeSources in H. same_items H db.
Qed.

Lemma served_grounded : forall db, served db -> forall x, grounded db x.
Proof.
  intros db Hs. induction Hs as [| op db Hs IH].
  - intro x. apply grounded_root. reflexivity.
  - unfold store_after. destruct (run op db) as [db' |] eqn:E; [| exact IH].
    apply (run_keeps_grounded op db db' (served_constraints db Hs) E IH).
Qed.

Lemma served_acyclic : forall db, served db -> acyclic db.
Proof.
  intros db Hs i.
  apply grounded_not_inside_itself.
  - apply (pk_inventoryItems db (served_constraints db Hs)).
  - apply served_grounded. exact Hs.
Qed.

Lemma setItemLocation_refuses :
  forall db item l,
    NoDup (item_ids db) ->
    l = item \/ located_inside db l item ->
    setItemLocation item (Some l) db = Err ConstraintViolation.
Proof.
  intros db item l Hnd H. unfold setItemLocation, would_cycle.
  rewrite (inside_or_same_finds db item Hnd _ l H).
  rewrite orb_true_r. reflexivity.
Qed.

Lemma createInventoryItem_refuses :
  forall db rnd v l,
    NoDup (item_ids db) ->
    inventoryItems.v_locationId v = Some l ->
    l = inventoryItems.id (inventoryItems.with_defaults rnd v)
    \/ located_inside db l (inventoryItems.id (inventoryItems.with_defaults rnd v)) ->
    createInventoryItem rnd v db = Err ConstraintViolation.
Proof.
  intros db rnd v l Hnd Hl H. unfold createInventoryItem.
  destruct (negb _); [reflexivity |].
  change (inventoryItems.locationId (inventoryItems.with_defaults rnd v))
    with (inventoryItems.v_locationId v).
  rewrite Hl. unfold would_cycle.
  rewrite (inside_or_same_finds db _ Hnd _ l H).
  rewrite orb_true_r. reflexivity.
Qed.

(** C6: in every state the operations reach, no item is located inside
    itself, directly or through other items; and there, setting the location
    of an item to itself or to an item located inside it fails with
    [ConstraintViolation], as does creating an item with such a location, and
    the store is as before. *)
Theorem location_graph_acyclic :
  forall (db : Db),
    served db ->
    acyclic db
    /\ (forall (item l : uuid),
          l = item \/ located_inside db l item ->
          setItemLocation item (Some l) db = Err ConstraintViolation
          /\ store_after (SetItemLocation item (Some l)) db = db)
    /\ (forall (rnd : uuid) (v : inventoryItems.values) (l : uuid),
          inventoryItems.v_locationId v = Some l ->
          l = inventoryItems.id (inventoryItems.with_defaults rnd v)
          \/ located_inside db l
               (inventoryItems.id (inventoryItems.with_defaults rnd v)) ->
          createInventoryItem rnd v db = Err ConstraintViolation
          /\ store_after (CreateInventoryItem rnd v) db = db).
Proof.
  intros db Hs.
  pose proof (pk_inventoryItems db (served_constraints db Hs)) as Hnd.
  split; [exact (served_acyclic db Hs) | split].
  - intros item l H.
    pose proof (setItemLocation_refuses db item l Hnd H) as E.
    split; [exact E |]. unfold store_after. cbn [run]. rewrite E. reflexivity.
  - intros rnd v l Hl H.
    pose proof (createInventoryItem_refuses db rnd v l Hnd Hl H) as E.
    split; [exact E |]. unfold store_after. cbn [run]. rewrite E. reflexivity.
Qed.

Lemma box_on_shelf : located_inside sample_db 41%N 40%N.
Proof.
  apply inside_here. exists sample_box. repeat split.
  simpl. right. left. reflexivity.
Qed.

Lemma location_graph_acyclic_witness :
  served sample_db
  /\ ~ located_inside sample_db 40%N 40%N
  /\ setItemLocation 40%N (Some 40%N) sample_db = Err ConstraintViolation
  /\ setItemLocation 40%N (Some 41%N) sample_db = Err ConstraintViolation.
Proof.
  destruct (location_graph_acyclic sample_db sample_db_served) as [Hacyc [Hset _]].
  split; [exact sample_db_served | split; [apply Hacyc | split]].
  - apply (Hset 40%N 40%N). left. reflexivity.
  - apply (Hset 40%N 41%N). right. exact box_on_shelf.
Defined.

(** The table itself takes an item located in itself: [parentItemFk] only
    asks that the location exists. *)
Lemma self_location_unconstrained :
  exists db',
    update_inventoryItems_locationId 40%N (Some 40%N) sample_db = Ok db'
    /\ located_inside db' 40%N 40%N.
Proof.
  eexists. split; [reflexivity |].
  apply inside_here. eexists. repeat split.
  - simpl. left. reflexivity.
  - reflexivity.
  - reflexivity.
Qed.

(** ** The walk has steps enough

    In a store the operations reach, the way up from an item passes every
    item at most once, so the number of items bounds it: the cycle check
    refuses nothing but cycles. *)

Lemma grounded_path : forall db x, grounded db x -> exists c, path db x c.
Proof.
  intros db x Hg. induction Hg as [x Hroot | x p Hloc Hg [c Hc]].
  - exists [x]. apply path_root. exact Hroot.
  - exists (x :: c). eapply path_step; eassumption.
Qed.

Lemma path_reach :
  forall db x c,
    NoDup (item_ids db) -> path db x c ->
    forall y, In y c -> y = x \/ located_inside db x y.
Proof.
  intros db x c Hnd Hp. induction Hp as [x Hroot | x p c Hloc Hp IH]; intros y Hy.
  - destruct Hy as [Hy | []]. left. symmetry. exact Hy.
  - destruct Hy as [Hy | Hy]; [left; symmetry; exact Hy | right].
    apply (located_in_lookup db x p Hnd) in Hloc.
    destruct (IH y Hy) as [Heq | Hin].
    + subst y. apply inside_here. exact Hloc.
    + eapply inside_further; eassumption.
Qed.

Lemma path_NoDup :
  forall db x c,
    NoDup (item_ids db) -> acyclic db -> path db x c -> NoDup c.
Proof.
  intros db x c Hnd Hacyc Hp. induction Hp as [x Hroot | x p c Hloc Hp IH].
  - constructor; [intros [] | constructor].
  - constructor; [| exact IH].
    intro Hin. apply (Hacyc x).
    pose proof Hloc as Hedge. apply (located_in_lookup db x p Hnd) in Hedge.
    destruct (path_reach db p c Hnd Hp x Hin) as [Heq | Hinside].
    + subst p. apply inside_here. exact Hedge.
    + eapply inside_further; eassumption.
Qed.

Lemma path_items :
  forall db x c,
    constraints_hold db -> In x (item_ids db) -> path db x c ->
    incl c (item_ids db).
Proof.
  intros db x c C Hx Hp. induction Hp as [x Hroot | x p c Hloc Hp IH]; intros y Hy.
  - destruct Hy as [Hy | []]. subst y. exact Hx.
  - destruct Hy as [Hy | Hy]; [subst y; exact Hx |].
    apply IH; [| exact Hy].
    apply (fk_items_location db C).
    apply (located_in_lookup db x p (pk_inventoryItems db C)) in Hloc.
    destruct Hloc as [r [Hin [_ Hl]]]. rewrite <- Hl. apply in_map. exact Hin.
Qed.

Lemma inside_or_same_along_path :
  forall db item x c,
    path db x c -> ~ In item c ->
    forall steps, List.length c <= steps ->
      inside_or_same steps db item x = false.
Proof.
  intros db item x c Hp. induction Hp as [x Hroot | x p c Hloc Hp IH];
    intros Hout steps Hlen; simpl in Hlen.
  - destruct steps as [| n]; [lia |]. simpl.
    destruct (N.eqb x item) eqn:Heq.
    + apply N.eqb_eq in Heq. exfalso. apply Hout. left. exact Heq.
    + rewrite Hroot. reflexivity.
  - destruct steps as [| n]; [lia |]. simpl.
    destruct (N.eqb x item) eqn:Heq.
    + apply N.eqb_eq in Heq. exfalso. apply Hout. left. exact Heq.
    + rewrite Hloc. apply IH; [| lia].
      intro Hin. apply Hout. right. exact Hin.
Qed.

Lemma would_cycle_exact :
  forall db item l,
    served db -> In l (item_ids db) ->
    (would_cycle db item l = true <-> l = item \/ located_inside db l item).
Proof.
  intros db item l Hs Hl.
  pose proof (served_constraints db Hs) as C.
  pose proof (pk_inventoryItems db C) as Hnd.
  split.
  - intro Hw.
    destruct (N.eq_dec l item) as [Heq | Hne]; [left; exact Heq | right].
    destruct (grounded_path db l (served_grounded db Hs l)) as [c Hp].
    assert (Hin : In item c).
    { destruct (in_dec N.eq_dec item c) as [Hin | Hout]; [exact Hin | exfalso].
      unfold would_cycle in Hw.
      rewrite (inside_or_same_along_path db item l c Hp Hout) in Hw;
        [discriminate |].
      replace (List.length (db_inventoryItems db))
        with (List.length (item_ids db)) by apply length_map.
      apply NoDup_incl_length.
      - apply (path_NoDup db l c Hnd (served_acyclic db Hs) Hp).
      - apply (path_items db l c C Hl Hp). }
    destruct (path_reach db l c Hnd Hp item Hin) as [Heq | Hinside].
    + exfalso. apply Hne. symmetry. exact Heq.
    + exact Hinside.
  - intro H. apply (inside_or_same_finds db item Hnd _ l H).
Qed.

(** Setting the location of an item to an existing item that is neither the
    item nor located inside it succeeds, and the item is then located there. *)
Lemma setItemLocation_accepts :
  forall db item l,
    served db ->
    In item (item_ids db) -> In l (item_ids db) ->
    l <> item -> ~ located_inside db l item ->
    exists db',
      setItemLocation item (Some l) db = Ok db'
      /\ location_of db' item = Some l.
Proof.
  intros db item l Hs Hitem Hl Hne Hout.
  unfold setItemLocation.
  assert (Hw : would_cycle db item l = false).
  { destruct (would_cycle db item l) eqn:Hw; [| reflexivity].
    apply (would_cycle_exact db item l Hs Hl) in Hw.
    destruct Hw as [Hw | Hw]; contradiction. }
  rewrite Hw. apply mem_uuid_In in Hl. rewrite Hl. simpl.
  unfold update_inventoryItems_locationId. simpl. rewrite Hl, orb_true_r. simpl.
  eexists. split; [reflexivity |].
  rewrite location_of_update, N.eqb_refl.
  apply mem_uuid_In in Hitem. rewrite Hitem. reflexivity.
Qed.

(** * Further properties of the source *)

(** ** Lists of rows, again *)

Lemma find_snoc :
  forall {T : Type} (p : T -> bool) (rows : list T) (r : T),
    find p (rows ++ [r])
    = match find p rows with
      | Some x => Some x
      | None => if p r then Some r else None
      end.
Proof.
  intros T p rows r. induction rows as [| x rows IH]; simpl.
  - reflexivity.
  - destruct (p x); [reflexivity | exact IH].
Qed.

Lemma filter_keeps_all :
  forall {T : Type} (p : T -> bool) (rows : list T),
    (forall r, In r rows -> p r = true) -> filter p rows = rows.
Proof.
  intros T p rows H. induction rows as [| x rows IH]; simpl.
  - reflexivity.
  - rewrite (H x (or_introl eq_refl)). f_equal.
    apply IH. intros r Hr. apply H. right. exact Hr.
Qed.

Lemma update_touches_none :
  forall {T : Type} (hit : T -> bool) (g : T -> T) (rows : list T),
    (forall r, In r rows -> hit r = false) ->
    map (fun r => if hit r then g r else r) rows = rows.
Proof.
  intros T hit g rows H. induction rows as [| x rows IH]; simpl.
  - reflexivity.
  - rewrite (H x (or_introl eq_refl)). f_equal.
    apply IH. intros r Hr. apply H. right. exact Hr.
Qed.

Lemma absent_id_misses :
  forall {T : Type} (id_of : T -> uuid) (rows : list T) (k : uuid),
    ~ In k (map id_of rows) ->
    forall r, In r rows -> N.eqb (id_of r) k = false.
Proof.
  intros T id_of rows k Habsent r Hr. apply N.eqb_neq. intro Heq.
  apply Habsent. rewrite <- Heq. apply in_map. exact Hr.
Qed.

Lemma with_users_same : forall db, with_users db (db_users db) = db.
Proof. intros []; reflexivity. Qed.

Lemma with_bomItems_same : forall db, with_bomItems db (db_bomItems db) = db.
Proof. intros []; reflexivity. Qed.

Lemma with_inventoryItems_same :
  forall db, with_inventoryItems db (db_inventoryItems db) = db.
Proof. intros []; reflexivity. Qed.

(** ** Users and the lookup by username *)

(** The store keeps the rows of a table in an order of its own, and a
    lookup without ORDER BY returns the first match in that order: what
    holds of the lookup has to hold for every arrangement of the rows. *)

Lemma find_first_of_filter :
  forall {T : Type} (p : T -> bool) (rows : list T),
    find p rows = hd_error (filter p rows).
Proof.
  intros T p rows. induction rows as [| x rows IH]; simpl.
  - reflexivity.
  - destruct (p x); [reflexivity | exact IH].
Qed.

Lemma filter_any_order :
  forall {T : Type} (p : T -> bool) (rows rows' : list T),
    Permutation rows rows' -> Permutation (filter p rows) (filter p rows').
Proof.
  intros T p rows rows' H. induction H as [| x l l' H IH | x y l | l l' l'' H1 IH1 H2 IH2].
  - constructor.
  - simpl. destruct (p x); [constructor |]; exact IH.
  - simpl. destruct (p x), (p y); try apply Permutation_refl. constructor.
  - eapply Permutation_trans; eassumption.
Qed.

Lemma find_only_match_any_order :
  forall {T : Type} (p : T -> bool) (rows rows' : list T) (u : T),
    filter p rows = [u] -> Permutation rows' rows -> find p rows' = Some u.
Proof.
  intros T p rows rows' u Hone Hperm.
  rewrite find_first_of_filter.
  pose proof (filter_any_order p rows rows' (Permutation_sym Hperm)) as Hf.
  rewrite Hone in Hf. apply Permutation_length_1_inv in Hf.
  rewrite Hf. reflexivity.
Qed.




(** X2: [username] carries no unique constraint: the same values, the
    username included, can be inserted twice under two fresh identifiers, and
    the table then holds at least two rows with that username. *)
Theorem username_is_not_unique :
  forall (db : Db) (v : users.values) (rnd1 rnd2 : uuid),
    users.v_id v = None ->
    ~ In rnd1 (user_ids db) -> ~ In rnd2 (user_ids db) -> rnd1 <> rnd2 ->
    exists db1 db2,
      insert_users rnd1 v db = Ok db1
      /\ insert_users rnd2 v db1 = Ok db2
      /\ 2 <= List.length
                (filter (fun u => AuthService.eq_varchar (users.username u)
                                    (users.v_username v))
                        (db_users db2)).
Proof.
  intros db v rnd1 rnd2 Hid H1 H2 Hne.
  set (db1 := with_users db (db_users db ++ [users.with_defaults rnd1 v])).
  set (db2 := with_users db1 (db_users db1 ++ [users.with_defaults rnd2 v])).
  assert (Hid1 : users.id (users.with_defaults rnd1 v) = rnd1)
    by (unfold users.with_defaults; simpl; rewrite Hid; reflexivity).
  assert (Hid2 : users.id (users.with_defaults rnd2 v) = rnd2)
    by (unfold users.with_defaults; simpl; rewrite Hid; reflexivity).
  exists db1, db2. split; [| split].
  - unfold insert_users. rewrite Hid1.
    apply mem_uuid_not_In in H1. rewrite H1. reflexivity.
  - unfold insert_users. rewrite Hid2.
    assert (H2' : mem_uuid rnd2 (user_ids db1) = false).
    { apply mem_uuid_not_In. unfold user_ids, db1. cbn [db_users with_users].
      rewrite map_app. cbn [map]. rewrite Hid1. intro Hin. apply in_app_or in Hin.
      destruct Hin as [Hin | [Heq | []]].
      - apply H2. exact Hin.
      - apply Hne. exact Heq. }
    rewrite H2'. reflexivity.
  - unfold db2, db1. simpl. rewrite !filter_app, !length_app. simpl.
    unfold AuthService.eq_varchar. rewrite String.eqb_refl. simpl. lia.
Qed.

Lemma username_is_not_unique_witness :
  exists db1 db2,
    insert_users 8%N (users.mkValues None "alice" "h" None) db_alice = Ok db1
    /\ insert_users 9%N (users.mkValues None "alice" "h" None) db1 = Ok db2
    /\ 2 <= List.length
              (filter (fun u => AuthService.eq_varchar (users.username u) "alice")
                      (db_users db2)).
Proof.
  apply (username_is_not_unique db_alice
           (users.mkValues None "alice" "h" None) 8%N 9%N).
  - reflexivity.
  - simpl. intros [H | []]. discriminate.
  - simpl. intros [H | []]. discriminate.
  - discriminate.
Defined.

(** ** Inventory items: insert and lookup *)

Lemma item_by_id_absent :
  forall db k, ~ In k (item_ids db) -> item_by_id db k = None.
Proof.
  intros db k Habsent. unfold item_by_id.
  destruct (find _ _) as [r |] eqn:E; [| reflexivity].
  apply find_some in E. destruct E as [Hin Hk].
  rewrite (absent_id_misses inventoryItems.id _ k Habsent r Hin) in Hk.
  discriminate.
Qed.

(** X3: after a successful INSERT the lookup by [id] finds the new row, with
    [state] ok and [is_countable] false when they were left out, and finds
    for every other [id] what it found before. *)
Theorem item_by_id_after_insert :
  forall (rnd : uuid) (v : inventoryItems.values) (db db' : Db),
    insert_inventoryItems rnd v db = Ok db' ->
    item_by_id db' (inventoryItems.id (inventoryItems.with_defaults rnd v))
    = Some (inventoryItems.with_defaults rnd v)
    /\ (forall x, x <> inventoryItems.id (inventoryItems.with_defaults rnd v) ->
                  item_by_id db' x = item_by_id db x)
    /\ (inventoryItems.v_state v = None ->
        inventoryItems.state (inventoryItems.with_defaults rnd v) = ok)
    /\ (inventoryItems.v_is_countable v = None ->
        inventoryItems.is_countable (inventoryItems.with_defaults rnd v) = false).
Proof.
  intros rnd v db db' E.
  unfold insert_inventoryItems in E. passed E. passed E. passed E. committed E.
  apply negb_true_iff, mem_uuid_not_In in Hcheck0.
  set (r := inventoryItems.with_defaults rnd v) in *.
  repeat split.
  - unfold item_by_id. cbn [db_inventoryItems with_inventoryItems].
    rewrite find_snoc.
    fold (item_by_id db (inventoryItems.id r)).
    rewrite (item_by_id_absent db _ Hcheck0), N.eqb_refl. reflexivity.
  - intros x Hx. unfold item_by_id. cbn [db_inventoryItems with_inventoryItems].
    rewrite find_snoc.
    destruct (find (fun r0 => N.eqb (inventoryItems.id r0) x)
                   (db_inventoryItems db)); [reflexivity |].
    apply not_eq_sym, N.eqb_neq in Hx. rewrite Hx. reflexivity.
  - intro Hs. unfold r. simpl. rewrite Hs. reflexivity.
  - intro Hc. unfold r. simpl. rewrite Hc. reflexivity.
Qed.

Lemma item_by_id_after_insert_witness :
  item_by_id
    (with_inventoryItems sample_db
       (db_inventoryItems sample_db
        ++ [inventoryItems.with_defaults 42%N
              (inventoryItems.mkValues None None 20%N 30%N (Some 40%N) None None None
                 None None)]))
    42%N
  = Some (inventoryItems.mk 42%N None 20%N 30%N (Some 40%N) ok None false None None).
Proof.
  apply (item_by_id_after_insert 42%N
           (inventoryItems.mkValues None None 20%N 30%N (Some 40%N) None None None
              None None)
           sample_db).
  reflexivity.
Defined.

(** X4: an INSERT that succeeds has found the type and the source among the
    existing rows, and its location, when it has one, among the existing
    items or in the new row itself; the [id] was not in use. *)
Theorem insert_inventoryItems_references :
  forall (rnd : uuid) (v : inventoryItems.values) (db db' : Db),
    insert_inventoryItems rnd v db = Ok db' ->
    ~ In (inventoryItems.id (inventoryItems.with_defaults rnd v)) (item_ids db)
    /\ (exists t, In t (db_inventoryItemTypes db)
                  /\ inventoryItemTypes.id t = inventoryItems.v_typeId v)
    /\ (exists s, In s (db_inventoryItemTypeSources db)
                  /\ inventoryItemTypeSources.id s = inventoryItems.v_sourceId v)
    /\ (forall l, inventoryItems.v_locationId v = Some l ->
                  In l (item_ids db)
                  \/ l = inventoryItems.id (inventoryItems.with_defaults rnd v)).
Proof.
  intros rnd v db db' E.
  unfold insert_inventoryItems in E. passed E. passed E. passed E. committed E.
  apply negb_true_iff, mem_uuid_not_In in Hcheck0.
  apply andb_true_iff in Hcheck1. destruct Hcheck1 as [Hfk Hloc].
  apply andb_true_iff in Hfk. destruct Hfk as [Htype Hsource].
  apply mem_uuid_In, in_map_iff in Htype. apply mem_uuid_In, in_map_iff in Hsource.
  split; [exact Hcheck0 | split; [| split]].
  - destruct Htype as [t [Ht Hin]]. exists t. split; assumption.
  - destruct Hsource as [s [Hs Hin]]. exists s. split; assumption.
  - intros l Hl.
    pose proof (proj1 (references_fk _ _) Hloc l Hl) as Hin.
    apply in_app_or in Hin. destruct Hin as [Hin | [Heq | []]].
    + left. exact Hin.
    + right. symmetry. exact Heq.
Qed.

Lemma insert_inventoryItems_references_witness :
  exists t, In t (db_inventoryItemTypes sample_db) /\ inventoryItemTypes.id t = 20%N.
Proof.
  apply (insert_inventoryItems_references 42%N
           (inventoryItems.mkValues None None 20%N 30%N (Some 40%N) None None None
              None None)
           sample_db _ eq_refl).
Defined.

(** X5: [parentItemFk] only asks that the location exists.  An UPDATE that
    locates an existing item in itself succeeds, and so does an INSERT whose
    location is its own fresh [id]; the graph then has a cycle. *)
Theorem schema_accepts_self_location :
  (forall (db : Db) (k : uuid),
      In k (item_ids db) ->
      exists db',
        update_inventoryItems_locationId k (Some k) db = Ok db'
        /\ located_in db' k k
        /\ ~ acyclic db')
  /\ (forall (db : Db) (rnd k : uuid) (v : inventoryItems.values),
        inventoryItems.v_id v = Some k ->
        inventoryItems.v_locationId v = Some k ->
        ~ In k (item_ids db) ->
        In (inventoryItems.v_typeId v) (itemType_ids db) ->
        In (inventoryItems.v_sourceId v) (source_ids db) ->
        int4_opt (inventoryItems.v_unit_price v) = true ->
        exists db',
          insert_inventoryItems rnd v db = Ok db'
          /\ located_in db' k k
          /\ ~ acyclic db').
Proof.
  split.
  - intros db k Hk.
    unfold update_inventoryItems_locationId.
    pose proof Hk as Hmem. apply mem_uuid_In in Hmem.
    simpl. rewrite Hmem, orb_true_r.
    eexists. split; [reflexivity |].
    assert (Hedge : located_in
              (with_inventoryItems db
                 (map (fun r => if N.eqb (inventoryItems.id r) k
                                then inventoryItems.set_locationId (Some k) r else r)
                      (db_inventoryItems db))) k k).
    { apply in_map_iff in Hk. destruct Hk as [r [Hr Hin]].
      exists (inventoryItems.set_locationId (Some k) r). repeat split.
      - simpl. apply in_map_iff. exists r. split; [| exact Hin].
        rewrite Hr, N.eqb_refl. reflexivity.
      - exact Hr. }
    split; [exact Hedge |].
    intro Hacyc. apply (Hacyc k). apply inside_here. exact Hedge.
  - intros db rnd k v Hid Hloc Hfresh Htype Hsource Hprice.
    unfold insert_inventoryItems.
    assert (Hk : inventoryItems.id (inventoryItems.with_defaults rnd v) = k)
      by (simpl; rewrite Hid; reflexivity).
    rewrite Hk.
    change (inventoryItems.unit_price (inventoryItems.with_defaults rnd v))
      with (inventoryItems.v_unit_price v).
    change (inventoryItems.typeId (inventoryItems.with_defaults rnd v))
      with (inventoryItems.v_typeId v).
    change (inventoryItems.sourceId (inventoryItems.with_defaults rnd v))
      with (inventoryItems.v_sourceId v).
    change (inventoryItems.locationId (inventoryItems.with_defaults rnd v))
      with (inventoryItems.v_locationId v).
    rewrite Hprice, Hloc.
    apply mem_uuid_not_In in Hfresh. rewrite Hfresh.
    apply mem_uuid_In in Htype. apply mem_uuid_In in Hsource.
    rewrite Htype, Hsource.
    assert (Hself : references (Some k) (item_ids db ++ [k]) = true).
    { apply references_fk. intros l Hl. inversion Hl. subst l.
      apply in_or_app. right. left. reflexivity. }
    rewrite Hself. simpl.
    eexists. split; [reflexivity |].
    assert (Hedge : located_in
              (with_inventoryItems db
                 (db_inventoryItems db ++ [inventoryItems.with_defaults rnd v])) k k).
    { exists (inventoryItems.with_defaults rnd v). repeat split.
      - simpl. apply in_or_app. right. left. reflexivity.
      - exact Hk.
      - exact Hloc. }
    split; [exact Hedge |].
    intro Hacyc. apply (Hacyc k). apply inside_here. exact Hedge.
Qed.

Lemma schema_accepts_self_location_witness :
  exists db',
    update_inventoryItems_locationId 41%N (Some 41%N) sample_db = Ok db'
    /\ located_in db' 41%N 41%N
    /\ ~ acyclic db'.
Proof.
  apply (proj1 schema_accepts_self_location sample_db 41%N).
  simpl. right. left. reflexivity.
Defined.

(** ** Rows that are referenced cannot be deleted *)

(** X6: in every state the statements reach, the user who entered a stock
    count cannot be deleted: the DELETE raises a foreign key violation and the
    state is as before. *)
Theorem user_of_a_count_cannot_be_deleted :
  forall (db : Db) (c : InventoryItemStockCount),
    reachable db ->
    In c (db_inventoryItemStockCounts db) ->
    delete_users (inventoryItemStockCounts.userId c) db = Err foreign_key_violation
    /\ state_after (DeleteUsers (inventoryItemStockCounts.userId c)) db = db.
Proof.
  intros db c Hr Hc.
  pose proof (reachable_constraints db Hr) as C.
  assert (E : delete_users (inventoryItemStockCounts.userId c) db
              = Err foreign_key_violation).
  { unfold delete_users.
    assert (Hu : mem_uuid (inventoryItemStockCounts.userId c) (user_ids db) = true).
    { apply mem_uuid_In. apply (fk_counts_user db C).
      apply (in_map (fun r => Some (inventoryItemStockCounts.userId r))). exact Hc. }
    assert (Href : mem_uuid (inventoryItemStockCounts.userId c)
                     (map inventoryItemStockCounts.userId
                          (db_inventoryItemStockCounts db)) = true).
    { apply mem_uuid_In. apply in_map. exact Hc. }
    rewrite Hu, Href. reflexivity. }
  split; [exact E |]. unfold state_after. cbn [exec]. rewrite E. reflexivity.
Qed.

Lemma user_of_a_count_cannot_be_deleted_witness :
  delete_users 2%N sample_db = Err foreign_key_violation.
Proof.
  apply (user_of_a_count_cannot_be_deleted sample_db sample_count
           sample_db_reachable).
  simpl. right. left. reflexivity.
Defined.

(** X7: in every state the statements reach, an item type cannot be deleted
    while a row of the bill of materials names it as item type or as
    ingredient type, or an inventory item has it as type. *)
Theorem used_item_type_cannot_be_deleted :
  forall (db : Db) (k : uuid),
    reachable db ->
    (exists b, In b (db_bomItems db)
               /\ (bomItems.itemTypeId b = Some k
                   \/ bomItems.ingredientTypeId b = Some k))
    \/ (exists i, In i (db_inventoryItems db) /\ inventoryItems.typeId i = k) ->
    delete_inventoryItemTypes k db = Err foreign_key_violation
    /\ state_after (DeleteInventoryItemTypes k) db = db.
Proof.
  intros db k Hr Hused.
  pose proof (reachable_constraints db Hr) as C.
  assert (E : delete_inventoryItemTypes k db = Err foreign_key_violation).
  { unfold delete_inventoryItemTypes.
    assert (Hrefs :
              mem_ref k (map bomItems.itemTypeId (db_bomItems db))
              || mem_ref k (map bomItems.ingredientTypeId (db_bomItems db))
              || mem_uuid k (map inventoryItems.typeId (db_inventoryItems db))
              = true
              /\ In k (itemType_ids db)).
    { destruct Hused as [[b [Hb [Hcol | Hcol]]] | [i [Hi Hcol]]].
      - assert (Hin : In (Some k) (map bomItems.itemTypeId (db_bomItems db)))
          by (rewrite <- Hcol; apply in_map; exact Hb).
        split; [| apply (fk_bom_itemType db C); exact Hin].
        apply mem_ref_In in Hin. rewrite Hin. reflexivity.
      - assert (Hin : In (Some k) (map bomItems.ingredientTypeId (db_bomItems db)))
          by (rewrite <- Hcol; apply in_map; exact Hb).
        split; [| apply (fk_bom_ingredientType db C); exact Hin].
        apply mem_ref_In in Hin. rewrite Hin, orb_true_r. reflexivity.
      - assert (Hin : In k (map inventoryItems.typeId (db_inventoryItems db)))
          by (rewrite <- Hcol; apply in_map; exact Hi).
        split; [| apply (fk_items_type db C); apply In_some_map; exact Hin].
        apply mem_uuid_In in Hin. rewrite Hin, orb_true_r. reflexivity. }
    destruct Hrefs as [Hrefs Hk]. apply mem_uuid_In in Hk.
    rewrite Hk, Hrefs. reflexivity. }
  split; [exact E |]. unfold state_after. cbn [exec]. rewrite E. reflexivity.
Qed.

Lemma used_item_type_cannot_be_deleted_witness :
  delete_inventoryItemTypes 20%N sample_db = Err foreign_key_violation.
Proof.
  apply (used_item_type_cannot_be_deleted sample_db 20%N sample_db_reachable).
  right. exists sample_box. split; [| reflexivity].
  simpl. right. left. reflexivity.
Defined.

(** X8: in every state the statements reach, an inventory item cannot be
    deleted while it has a stock count or while another item is located in
    it. *)
Theorem counted_or_occupied_item_cannot_be_deleted :
  forall (db : Db) (k : uuid),
    reachable db ->
    (exists c, In c (db_inventoryItemStockCounts db)
               /\ inventoryItemStockCounts.itemId c = k)
    \/ (exists i, In i (db_inventoryItems db)
                  /\ inventoryItems.id i <> k
                  /\ inventoryItems.locationId i = Some k) ->
    delete_inventoryItems k db = Err foreign_key_violation
    /\ state_after (DeleteInventoryItems k) db = db.
Proof.
  intros db k Hr Hused.
  pose proof (reachable_constraints db Hr) as C.
  assert (E : delete_inventoryItems k db = Err foreign_key_violation).
  { unfold delete_inventoryItems.
    assert (Hrefs :
              mem_ref k
                (map inventoryItems.locationId
                     (filter (fun r => negb (N.eqb (inventoryItems.id r) k))
                             (db_inventoryItems db)))
              || mem_uuid k (map inventoryItemStockCounts.itemId
                                 (db_inventoryItemStockCounts db))
              = true
              /\ In k (item_ids db)).
    { destruct Hused as [[c [Hc Hcol]] | [i [Hi [Hne Hcol]]]].
      - assert (Hin : In k (map inventoryItemStockCounts.itemId
                                (db_inventoryItemStockCounts db)))
          by (rewrite <- Hcol; apply in_map; exact Hc).
        split; [| apply (fk_counts_item db C); apply In_some_map; exact Hin].
        apply mem_uuid_In in Hin. rewrite Hin, orb_true_r. reflexivity.
      - split.
        + assert (Hin : In (Some k)
                          (map inventoryItems.locationId
                               (filter (fun r => negb (N.eqb (inventoryItems.id r) k))
                                       (db_inventoryItems db)))).
          { rewrite <- Hcol. apply in_map. apply filter_In. split; [exact Hi |].
            apply negb_true_iff, N.eqb_neq. exact Hne. }
          apply mem_ref_In in Hin. rewrite Hin. reflexivity.
        + apply (fk_items_location db C). rewrite <- Hcol. apply in_map. exact Hi. }
    destruct Hrefs as [Hrefs Hk]. apply mem_uuid_In in Hk.
    rewrite Hk, Hrefs. reflexivity. }
  split; [exact E |]. unfold state_after. cbn [exec]. rewrite E. reflexivity.
Qed.

Lemma counted_or_occupied_item_cannot_be_deleted_witness :
  delete_inventoryItems 40%N sample_db = Err foreign_key_violation.
Proof.
  apply (counted_or_occupied_item_cannot_be_deleted sample_db 40%N
           sample_db_reachable).
  right. exists sample_box. repeat split.
  - simpl. right. left. reflexivity.
  - discriminate.
Defined.

(** ** Statements in sequence *)

(** X9: in every state the statements reach, deleting a user right after
    inserting it succeeds and gives back the state before the INSERT. *)
Theorem delete_undoes_insert_users :
  forall (rnd : uuid) (v : users.values) (db db1 : Db),
    reachable db ->
    insert_users rnd v db = Ok db1 ->
    delete_users (users.id (users.with_defaults rnd v)) db1 = Ok db.
Proof.
  intros rnd v db db1 Hr E.
  pose proof (reachable_constraints db Hr) as C.
  unfold insert_users in E. passed E. committed E.
  apply negb_true_iff, mem_uuid_not_In in Hcheck.
  set (r := users.with_defaults rnd v) in *.
  unfold delete_users. cbn [db_inventoryItemStockCounts with_users db_users].
  assert (Hfree : mem_uuid (users.id r)
                    (map inventoryItemStockCounts.userId
                         (db_inventoryItemStockCounts db)) = false).
  { apply mem_uuid_not_In. intro Hin. apply Hcheck.
    apply (fk_counts_user db C). apply In_some_map. exact Hin. }
  rewrite Hfree, andb_false_r. simpl.
  rewrite filter_app. simpl. rewrite N.eqb_refl. simpl. rewrite app_nil_r.
  rewrite filter_keeps_all.
  - destruct db; reflexivity.
  - intros u Hu. apply negb_true_iff.
    apply (absent_id_misses users.id (db_users db) _ Hcheck u Hu).
Qed.

Lemma delete_undoes_insert_users_witness :
  delete_users 9%N
    (with_users sample_db
       (db_users sample_db
        ++ [users.with_defaults 9%N (users.mkValues None "carol" "h" None)]))
  = Ok sample_db.
Proof.
  apply (delete_undoes_insert_users 9%N (users.mkValues None "carol" "h" None)
           sample_db _ sample_db_reachable eq_refl).
Defined.

Lemma filter_of_update :
  forall {T : Type} (p : T -> bool) (f : T -> T) (rows : list T),
    (forall x, p (f x) = p x) ->
    filter p (map f rows) = map f (filter p rows).
Proof.
  intros T p f rows Hp. induction rows as [| x rows IH]; simpl.
  - reflexivity.
  - rewrite Hp. destruct (p x); simpl; rewrite IH; reflexivity.
Qed.

(** X10: after an UPDATE of a user's [permissionRole], and whatever the
    order the rows are kept in: the usernames and the password hashes of the
    table are the same as before, and a lookup by a username that one row has
    returns that row, with the new role when it is the row that was
    updated. *)
Theorem findFirst_after_role_update :
  forall (k : uuid) (role : PermissionRole) (db : Db) (username : string)
         (rows' : list User),
    Permutation rows' (db_users (state_after (UpdateUsersPermissionRole k role) db)) ->
    Permutation (map users.username rows') (map users.username (db_users db))
    /\ Permutation (map users.passwordHash rows')
                   (map users.passwordHash (db_users db))
    /\ (forall u,
          filter (fun r => AuthService.eq_varchar (users.username r) username)
                 (db_users db) = [u] ->
          AuthService.findFirst
            (fun r => AuthService.eq_varchar (users.username r) username) rows'
          = Some (if N.eqb (users.id u) k
                  then users.mk (users.id u) (users.username u)
                                (users.passwordHash u) role
                  else u)).
Proof.
  intros k role db username rows' Hperm.
  unfold state_after in Hperm. cbn [exec update_users_permissionRole
    db_users with_users] in Hperm.
  set (f := fun r : users.row =>
              if N.eqb (users.id r) k
              then users.mk (users.id r) (users.username r) (users.passwordHash r) role
              else r) in *.
  assert (Hname : forall r, users.username (f r) = users.username r).
  { intro r. unfold f. destruct (N.eqb _ _); reflexivity. }
  assert (Hhash : forall r, users.passwordHash (f r) = users.passwordHash r).
  { intro r. unfold f. destruct (N.eqb _ _); reflexivity. }
  split; [| split].
  - rewrite <- (keys_of_update users.username f (db_users db) Hname).
    apply Permutation_map. exact Hperm.
  - rewrite <- (keys_of_update users.passwordHash f (db_users db) Hhash).
    apply Permutation_map. exact Hperm.
  - intros u Hone. unfold AuthService.findFirst.
    apply (find_only_match_any_order _ (map f (db_users db)) rows' (f u));
      [| exact Hperm].
    rewrite filter_of_update.
    + rewrite Hone. reflexivity.
    + intro x. rewrite Hname. reflexivity.
Qed.

Lemma findFirst_after_role_update_witness :
  AuthService.findFirst
    (fun r => AuthService.eq_varchar (users.username r) "alice")
    (db_users (state_after (UpdateUsersPermissionRole 1%N admin) db_alice))
  = Some (users.mk 1%N "alice" "hash-of-alice" admin).
Proof.
  destruct (findFirst_after_role_update 1%N admin db_alice "alice"
              (db_users (state_after (UpdateUsersPermissionRole 1%N admin) db_alice))
              (Permutation_refl _)) as [_ [_ Hfind]].
  apply (Hfind alice). reflexivity.
Defined.

(** ** Statements on a key that is absent *)

(** X13: a DELETE or an UPDATE by a primary key that no row has succeeds and
    changes nothing; the UPDATE of a location does so even when the new
    location does not exist. *)
Theorem absent_key_statements_change_nothing :
  forall (db : Db),
    (forall k role,
        ~ In k (user_ids db) ->
        delete_users k db = Ok db
        /\ update_users_permissionRole k role db = Ok db)
    /\ (forall k l,
          ~ In k (item_ids db) ->
          delete_inventoryItems k db = Ok db
          /\ update_inventoryItems_locationId k l db = Ok db)
    /\ (forall k quantity reclaimable,
          ~ In k (bom_keys db) ->
          delete_bomItems k db = Ok db
          /\ (int4 quantity = true ->
              update_bomItems k quantity reclaimable db = Ok db)).
Proof.
  intro db. split; [| split].
  - intros k role Hk.
    pose proof (absent_id_misses users.id (db_users db) k Hk) as Hmiss.
    split.
    + unfold delete_users. apply mem_uuid_not_In in Hk. rewrite Hk. simpl.
      rewrite filter_keeps_all.
      * rewrite with_users_same. reflexivity.
      * intros r Hr. rewrite (Hmiss r Hr). reflexivity.
    + unfold update_users_permissionRole.
      rewrite (update_touches_none (fun r => N.eqb (users.id r) k)
                 (fun r => users.mk (users.id r) (users.username r)
                                    (users.passwordHash r) role)
                 (db_users db) Hmiss).
      rewrite with_users_same. reflexivity.
  - intros k l Hk.
    pose proof (absent_id_misses inventoryItems.id (db_inventoryItems db) k Hk)
      as Hmiss.
    split.
    + unfold delete_inventoryItems. apply mem_uuid_not_In in Hk. rewrite Hk. simpl.
      rewrite filter_keeps_all.
      * rewrite with_inventoryItems_same. reflexivity.
      * intros r Hr. rewrite (Hmiss r Hr). reflexivity.
    + unfold update_inventoryItems_locationId.
      apply mem_uuid_not_In in Hk. rewrite Hk. simpl.
      rewrite (update_touches_none (fun r => N.eqb (inventoryItems.id r) k)
                 (inventoryItems.set_locationId l) (db_inventoryItems db) Hmiss).
      rewrite with_inventoryItems_same. reflexivity.
  - intros k quantity reclaimable Hk.
    assert (Hmiss : forall r, In r (db_bomItems db) ->
                              bomItems.pk_eqb (bomItems.pk r) k = false).
    { intros r Hr. destruct (bomItems.pk_eqb (bomItems.pk r) k) eqn:E; [| reflexivity].
      apply bom_pk_eqb_eq in E. exfalso. apply Hk. rewrite <- E.
      apply in_map. exact Hr. }
    split.
    + unfold delete_bomItems. rewrite filter_keeps_all.
      * rewrite with_bomItems_same. reflexivity.
      * intros r Hr. rewrite (Hmiss r Hr). reflexivity.
    + intro Hq. unfold update_bomItems. rewrite Hq.
      rewrite (update_touches_none (fun r => bomItems.pk_eqb (bomItems.pk r) k)
                 (fun r => bomItems.mk (bomItems.itemTypeId r)
                                       (bomItems.ingredientTypeId r)
                                       quantity reclaimable)
                 (db_bomItems db) Hmiss).
      rewrite with_bomItems_same. reflexivity.
Qed.

Lemma absent_key_statements_change_nothing_witness :
  update_inventoryItems_locationId 77%N (Some 78%N) sample_db = Ok sample_db
  /\ delete_users 77%N sample_db = Ok sample_db.
Proof.
  destruct (absent_key_statements_change_nothing sample_db) as [Hu [Hi _]].
  split.
  - apply (Hi 77%N (Some 78%N)).
    simpl. intros [H | [H | []]]; discriminate.
  - apply (Hu 77%N viewer).
    simpl. intros [H | [H | []]]; discriminate.
Defined.

(** ** References resolve in every reachable state *)

Lemma item_by_id_present :
  forall db k,
    NoDup (item_ids db) -> In k (item_ids db) ->
    exists r, item_by_id db k = Some r /\ In r (db_inventoryItems db).
Proof.
  intros db k Hnd Hk. apply in_map_iff in Hk. destruct Hk as [r [Hr Hin]].
  exists r. split; [| exact Hin]. rewrite <- Hr.
  apply item_by_id_of_row; assumption.
Qed.

(** X11: in every state the statements reach, the lookup by [id] of an
    inventory item gives back that row, its type and its source are rows of
    their tables, and its location, when it has one, is an item the lookup
    finds. *)
Theorem inventoryItem_references_resolve :
  forall (db : Db) (r : InventoryItem),
    reachable db ->
    In r (db_inventoryItems db) ->
    item_by_id db (inventoryItems.id r) = Some r
    /\ (exists t, In t (db_inventoryItemTypes db)
                  /\ inventoryItemTypes.id t = inventoryItems.typeId r)
    /\ (exists s, In s (db_inventoryItemTypeSources db)
                  /\ inventoryItemTypeSources.id s = inventoryItems.sourceId r)
    /\ (forall l, inventoryItems.locationId r = Some l ->
                  exists p, item_by_id db l = Some p
                            /\ In p (db_inventoryItems db)).
Proof.
  intros db r Hr Hin.
  pose proof (reachable_constraints db Hr) as C.
  pose proof (pk_inventoryItems db C) as Hnd.
  split; [apply item_by_id_of_row; assumption | split; [| split]].
  - assert (Hk : In (inventoryItems.typeId r) (itemType_ids db)).
    { apply (fk_items_type db C).
      apply (in_map (fun x => Some (inventoryItems.typeId x))). exact Hin. }
    apply in_map_iff in Hk. destruct Hk as [t [Ht Htin]].
    exists t. split; assumption.
  - assert (Hk : In (inventoryItems.sourceId r) (source_ids db)).
    { apply (fk_items_source db C).
      apply (in_map (fun x => Some (inventoryItems.sourceId x))). exact Hin. }
    apply in_map_iff in Hk. destruct Hk as [s [Hs Hsin]].
    exists s. split; assumption.
  - intros l Hl. apply (item_by_id_present db l Hnd).
    apply (fk_items_location db C). rewrite <- Hl. apply in_map. exact Hin.
Qed.

Lemma inventoryItem_references_resolve_witness :
  item_by_id sample_db 41%N = Some sample_box
  /\ exists p, item_by_id sample_db 40%N = Some p.
Proof.
  assert (Hin : In sample_box (db_inventoryItems sample_db))
    by (simpl; right; left; reflexivity).
  destruct (inventoryItem_references_resolve sample_db sample_box
              sample_db_reachable Hin) as [Hself [_ [_ Hloc]]].
  split; [exact Hself |].
  destruct (Hloc 40%N eq_refl) as [p [Hp _]]. exists p. exact Hp.
Defined.

(** X12: in every state the statements reach, a stock count belongs to an
    item the lookup by [id] finds, and was entered by exactly one row of
    [users]. *)
Theorem stockCount_references_resolve :
  forall (db : Db) (c : InventoryItemStockCount),
    reachable db ->
    In c (db_inventoryItemStockCounts db) ->
    (exists i, item_by_id db (inventoryItemStockCounts.itemId c) = Some i
               /\ In i (db_inventoryItems db))
    /\ (exists u, In u (db_users db)
                  /\ users.id u = inventoryItemStockCounts.userId c
                  /\ forall u', In u' (db_users db) ->
                                users.id u' = inventoryItemStockCounts.userId c ->
                                u' = u).
Proof.
  intros db c Hr Hin.
  pose proof (reachable_constraints db Hr) as C.
  split.
  - apply (item_by_id_present db _ (pk_inventoryItems db C)).
    apply (fk_counts_item db C).
    apply (in_map (fun x => Some (inventoryItemStockCounts.itemId x))). exact Hin.
  - assert (Hk : In (inventoryItemStockCounts.userId c) (user_ids db)).
    { apply (fk_counts_user db C).
      apply (in_map (fun x => Some (inventoryItemStockCounts.userId x))). exact Hin. }
    apply in_map_iff in Hk. destruct Hk as [u [Hu Huin]].
    exists u. split; [exact Huin | split; [exact Hu |]].
    intros u' Hu'in Hu'.
    apply (key_identifies_row users.id (db_users db));
      [apply (pk_users db C) | assumption | assumption | congruence].
Qed.

Lemma stockCount_references_resolve_witness :
  exists u, In u (db_users sample_db) /\ users.id u = 2%N.
Proof.
  assert (Hin : In sample_count (db_inventoryItemStockCounts sample_db))
    by (simpl; right; left; reflexivity).
  destruct (stockCount_references_resolve sample_db sample_count
              sample_db_reachable Hin) as [_ [u [Hu [Hid _]]]].
  exists u. split; assumption.
Defined.

(** ** The relations between item types and the bill of materials *)

Lemma joins_eq : forall field k, joins field k = true <-> field = Some k.
Proof.
  intros [x |] k; simpl; split; intro H; try discriminate.
  - apply N.eqb_eq in H. subst x. reflexivity.
  - inversion H. apply N.eqb_refl.
Qed.

Lemma one_relation_finds :
  forall (db : Db) (field : option uuid) (t : InventoryItemType),
    NoDup (itemType_ids db) ->
    In t (db_inventoryItemTypes db) ->
    (joins field (inventoryItemTypes.id t) = true
     <-> find (fun x => joins field (inventoryItemTypes.id x))
              (db_inventoryItemTypes db) = Some t).
Proof.
  intros db field t Hnd Ht. split.
  - intro Hj.
    destruct (find (fun x => joins field (inventoryItemTypes.id x))
                   (db_inventoryItemTypes db)) as [t' |] eqn:E.
    + apply find_some in E. destruct E as [Ht' Hj']. f_equal.
      apply joins_eq in Hj. apply joins_eq in Hj'.
      apply (key_identifies_row inventoryItemTypes.id (db_inventoryItemTypes db));
        [assumption | assumption | assumption | congruence].
    + pose proof (find_none _ _ E t Ht) as Hf. simpl in Hf.
      rewrite Hj in Hf. discriminate.
  - intro E. apply find_some in E. apply E.
Qed.

(** X14: in every state the statements reach, the two sides of each
    relation agree: a row of the bill of materials is among the [madeByItems]
    of an item type exactly when that type is its [itemType], and among the
    [usedInItems] exactly when it is its [ingredientType]; and both [one]
    relations of a row yield a type. *)
Theorem bomItem_relations_agree :
  forall (db : Db) (r : BomItem) (t : InventoryItemType),
    reachable db ->
    In r (db_bomItems db) ->
    In t (db_inventoryItemTypes db) ->
    (In r (inventoryItemTypeRelations.madeByItems db t)
     <-> bomItemRelations.itemType db r = Some t)
    /\ (In r (inventoryItemTypeRelations.usedInItems db t)
        <-> bomItemRelations.ingredientType db r = Some t)
    /\ bomItemRelations.itemType db r <> None
    /\ bomItemRelations.ingredientType db r <> None.
Proof.
  intros db r t Hr Hin Ht.
  pose proof (reachable_constraints db Hr) as C.
  pose proof (pk_inventoryItemTypes db C) as Hnd.
  assert (Hsome :
            forall col : BomItem -> option uuid,
              col r <> None ->
              fk_holds (map col (db_bomItems db)) (itemType_ids db) ->
              find (fun x => joins (col r) (inventoryItemTypes.id x))
                   (db_inventoryItemTypes db) <> None).
  { intros col Hnn Hfk.
    destruct (col r) as [k |] eqn:Hk; [| contradiction].
    assert (Hkin : In k (itemType_ids db)).
    { apply Hfk. rewrite <- Hk. apply in_map. exact Hin. }
    apply in_map_iff in Hkin. destruct Hkin as [t0 [Ht0 Ht0in]].
    intro Hnone. pose proof (find_none _ _ Hnone t0 Ht0in) as Hf. simpl in Hf.
    rewrite Ht0, N.eqb_refl in Hf. discriminate. }
  destruct (nn_bomItems db C r Hin) as [Hnn1 Hnn2].
  unfold inventoryItemTypeRelations.madeByItems,
    inventoryItemTypeRelations.usedInItems,
    bomItemRelations.itemType, bomItemRelations.ingredientType.
  split; [| split; [| split]].
  - rewrite filter_In.
    rewrite <- (one_relation_finds db (bomItems.itemTypeId r) t Hnd Ht).
    split; [intros [_ H]; exact H | intro H; split; assumption].
  - rewrite filter_In.
    rewrite <- (one_relation_finds db (bomItems.ingredientTypeId r) t Hnd Ht).
    split; [intros [_ H]; exact H | intro H; split; assumption].
  - apply (Hsome bomItems.itemTypeId Hnn1 (fk_bom_itemType db C)).
  - apply (Hsome bomItems.ingredientTypeId Hnn2 (fk_bom_ingredientType db C)).
Qed.

Lemma bomItem_relations_agree_witness :
  bomItemRelations.itemType sample_db
    (bomItems.mk (Some 21%N) (Some 20%N) 8%Z false)
  = Some (inventoryItemTypes.mk 21%N false (Some "shelf")).
Proof.
  apply (bomItem_relations_agree sample_db
           (bomItems.mk (Some 21%N) (Some 20%N) 8%Z false)
           (inventoryItemTypes.mk 21%N false (Some "shelf"))
           sample_db_reachable).
  - simpl. left. reflexivity.
  - simpl. right. left. reflexivity.
  - simpl. left. reflexivity.
Defined.

(** ** The two token decorators *)



(** ** The port *)

Lemma digit_cases :
  forall d : N,
    (d < 10)%N ->
    d = 0%N \/ d = 1%N \/ d = 2%N \/ d = 3%N \/ d = 4%N \/ d = 5%N \/ d = 6%N
    \/ d = 7%N \/ d = 8%N \/ d = 9%N.
Proof. intros d H. lia. Qed.

Ltac each_digit d H :=
  destruct (digit_cases d H)
    as [?|[?|[?|[?|[?|[?|[?|[?|[?|?]]]]]]]]]; subst d.

Lemma digit_char_reads_back :
  forall d, (d < 10)%N -> digit_value 10 (digit_char d) = Some d.
Proof. intros d H. each_digit d H; reflexivity. Qed.

Lemma digit_char_plain :
  forall d,
    (d < 10)%N ->
    is_white_space (digit_char d) = false
    /\ Ascii.eqb (digit_char d) "-" = false
    /\ Ascii.eqb (digit_char d) "+" = false
    /\ Ascii.eqb (digit_char d) "x" = false
    /\ Ascii.eqb (digit_char d) "X" = false.
Proof. intros d H. each_digit d H; repeat split. Qed.

Lemma leading_digits_numeral :
  forall ds,
    Forall (fun d => (d < 10)%N) ds ->
    forall a tail,
      leading_digits 10 (String.append (numeral ds) tail) (Some a)
      = leading_digits 10 tail (Some (fold_left (fun x d => (10 * x + d)%N) ds a)).
Proof.
  intros ds Hds. induction Hds as [| d ds Hd Hds IH]; intros a tail.
  - reflexivity.
  - cbn [numeral String.append leading_digits fold_left].
    rewrite (digit_char_reads_back d Hd). rewrite IH.
    rewrite (N.mul_comm a 10). reflexivity.
Qed.

Lemma numeral_bound :
  forall ds,
    Forall (fun d => (d < 10)%N) ds ->
    forall a,
      (fold_left (fun x d => (10 * x + d)%N) ds a + 1
       <= (a + 1) * 10 ^ N.of_nat (List.length ds))%N.
Proof.
  intros ds Hds. induction Hds as [| d ds Hd Hds IH]; intro a.
  - simpl. lia.
  - cbn [fold_left List.length]. rewrite Nat2N.inj_succ, N.pow_succ_r'.
    specialize (IH (10 * a + d)%N).
    eapply N.le_trans; [exact IH |].
    rewrite (N.mul_assoc (a + 1) 10).
    apply N.mul_le_mono_r. lia.
Qed.

Lemma digit_char_not_zero :
  forall d, (d < 10)%N -> d <> 0%N -> Ascii.eqb (digit_char d) "0" = false.
Proof. intros d H Hne. each_digit d H; try reflexivity. contradiction. Qed.

Lemma strip_hex_prefix_numeral :
  forall d ds tail,
    (d < 10)%N -> Forall (fun e => (e < 10)%N) ds -> ends_digits (d :: ds) tail ->
    strip_hex_prefix (String.append (numeral (d :: ds)) tail)
    = (10%N, String.append (numeral (d :: ds)) tail).
Proof.
  intros d ds tail Hd Hds Htail. cbn [numeral String.append].
  destruct ds as [| e ds].
  - destruct Htail as [Htail | [c [rest [Htail [_ Hx]]]]]; subst tail.
    + reflexivity.
    + cbn [numeral String.append strip_hex_prefix].
      destruct (N.eq_dec d 0) as [Hz | Hnz].
      * subst d. destruct (Hx eq_refl) as [Hx1 Hx2].
        rewrite Hx1, Hx2, andb_false_r. reflexivity.
      * rewrite (digit_char_not_zero d Hd Hnz). reflexivity.
  - cbn [numeral String.append strip_hex_prefix].
    inversion Hds as [| e' ds' He Hds']; subst.
    destruct (digit_char_plain e He) as [_ [_ [_ [Hx HX]]]].
    rewrite Hx, HX, andb_false_r. reflexivity.
Qed.

Lemma parseInt_numeral :
  forall d ds tail,
    (d < 10)%N -> Forall (fun e => (e < 10)%N) ds ->
    List.length (d :: ds) <= 15 ->
    ends_digits (d :: ds) tail ->
    parseInt (String.append (numeral (d :: ds)) tail)
    = number (Z.of_N (numeral_value (d :: ds))).
Proof.
  intros d ds tail Hd Hds Hlen Htail.
  destruct (digit_char_plain d Hd) as [Hws [Hminus [Hplus _]]].
  unfold parseInt.
  assert (Htrim : trim_start (String.append (numeral (d :: ds)) tail)
                  = String.append (numeral (d :: ds)) tail).
  { cbn [numeral String.append trim_start]. rewrite Hws. reflexivity. }
  rewrite Htrim.
  assert (Hsign : strip_sign (String.append (numeral (d :: ds)) tail)
                  = (false, String.append (numeral (d :: ds)) tail)).
  { cbn [numeral String.append strip_sign]. rewrite Hminus, Hplus. reflexivity. }
  rewrite Hsign, (strip_hex_prefix_numeral d ds tail Hd Hds Htail).
  assert (Hread : leading_digits 10 (String.append (numeral (d :: ds)) tail) None
                  = Some (numeral_value (d :: ds))).
  { cbn [numeral String.append leading_digits].
    rewrite (digit_char_reads_back d Hd).
    rewrite (leading_digits_numeral ds Hds).
    unfold numeral_value. cbn [fold_left].
    replace (10 * 0 + d)%N with d by lia.
    destruct Htail as [Htail | [c [rest [Htail [Hc _]]]]]; subst tail.
    - reflexivity.
    - cbn [leading_digits]. rewrite Hc. reflexivity. }
  rewrite Hread.
  assert (Hbound : (numeral_value (d :: ds) <= 9007199254740992)%N).
  { pose proof (numeral_bound (d :: ds) (Forall_cons d Hd Hds) 0%N) as Hb.
    fold (numeral_value (d :: ds)) in Hb.
    assert (Hpow : (10 ^ N.of_nat (List.length (d :: ds)) <= 10 ^ 15)%N).
    { apply N.pow_le_mono_r; lia. }
    change (10 ^ 15)%N with 1000000000000000%N in Hpow. lia. }
  destruct (numeral_value (d :: ds)) as [| p] eqn:Hv.
  - reflexivity.
  - apply N.leb_le in Hbound. rewrite Hbound. reflexivity.
Qed.

Lemma hex_cases :
  forall d : N,
    (d < 16)%N ->
    d = 0%N \/ d = 1%N \/ d = 2%N \/ d = 3%N \/ d = 4%N \/ d = 5%N \/ d = 6%N
    \/ d = 7%N \/ d = 8%N \/ d = 9%N \/ d = 10%N \/ d = 11%N \/ d = 12%N
    \/ d = 13%N \/ d = 14%N \/ d = 15%N.
Proof. intros d H. lia. Qed.

Lemma hex_char_reads_back :
  forall upper d, (d < 16)%N -> digit_value 16 (hex_char upper d) = Some d.
Proof.
  intros upper d H.
  destruct (hex_cases d H)
    as [?|[?|[?|[?|[?|[?|[?|[?|[?|[?|[?|[?|[?|[?|[?|?]]]]]]]]]]]]]]];
    subst d; destruct upper; reflexivity.
Qed.

Lemma leading_digits_hex_numeral :
  forall hs,
    Forall (fun d => (snd d < 16)%N) hs ->
    forall a,
      leading_digits 16 (hex_numeral hs) (Some a)
      = Some (fold_left (fun x d => (16 * x + d)%N) (map snd hs) a).
Proof.
  intros hs Hhs. induction Hhs as [| [upper h] hs Hh Hhs IH]; intro a.
  - reflexivity.
  - cbn [hex_numeral leading_digits fold_left map snd].
    rewrite (hex_char_reads_back upper h Hh). rewrite IH.
    rewrite (N.mul_comm a 16). reflexivity.
Qed.

Lemma hex_bound :
  forall hs,
    Forall (fun d => (d < 16)%N) hs ->
    forall a,
      (fold_left (fun x d => (16 * x + d)%N) hs a + 1
       <= (a + 1) * 16 ^ N.of_nat (List.length hs))%N.
Proof.
  intros hs Hhs. induction Hhs as [| h hs Hh Hhs IH]; intro a.
  - simpl. lia.
  - cbn [fold_left List.length]. rewrite Nat2N.inj_succ, N.pow_succ_r'.
    specialize (IH (16 * a + h)%N).
    eapply N.le_trans; [exact IH |].
    rewrite (N.mul_assoc (a + 1) 16).
    apply N.mul_le_mono_r. lia.
Qed.

Lemma parseInt_hex_numeral :
  forall x upper h hs,
    Ascii.eqb x "x" || Ascii.eqb x "X" = true ->
    (h < 16)%N -> Forall (fun d => (snd d < 16)%N) hs ->
    List.length ((upper, h) :: hs) <= 13 ->
    parseInt (String "0" (String x (hex_numeral ((upper, h) :: hs))))
    = number (Z.of_N (hex_value ((upper, h) :: hs))).
Proof.
  intros x upper h hs Hx Hh Hhs Hlen.
  unfold parseInt. cbn [trim_start].
  change (is_white_space "0") with false. cbn iota.
  cbn [strip_sign]. change (Ascii.eqb "0" "-") with false.
  change (Ascii.eqb "0" "+") with false. cbn iota.
  cbn [strip_hex_prefix]. change (Ascii.eqb "0" "0") with true.
  rewrite Hx. cbn [andb]. cbn iota.
  assert (Hread : leading_digits 16 (hex_numeral ((upper, h) :: hs)) None
                  = Some (hex_value ((upper, h) :: hs))).
  { cbn [hex_numeral leading_digits].
    rewrite (hex_char_reads_back upper h Hh).
    rewrite (leading_digits_hex_numeral hs Hhs).
    unfold hex_value. cbn [fold_left map snd].
    replace (16 * 0 + h)%N with h by lia. reflexivity. }
  rewrite Hread.
  assert (Hbound : (hex_value ((upper, h) :: hs) <= 9007199254740992)%N).
  { assert (Hall : Forall (fun d => (d < 16)%N) (map snd ((upper, h) :: hs))).
    { apply Forall_map. constructor; [exact Hh | exact Hhs]. }
    pose proof (hex_bound _ Hall 0%N) as Hb.
    fold (hex_value ((upper, h) :: hs)) in Hb.
    rewrite length_map in Hb.
    assert (Hpow : (16 ^ N.of_nat (List.length ((upper, h) :: hs)) <= 16 ^ 13)%N).
    { apply N.pow_le_mono_r; lia. }
    change (16 ^ 13)%N with 4503599627370496%N in Hpow. lia. }
  destruct (hex_value ((upper, h) :: hs)) as [| p] eqn:Hv.
  - reflexivity.
  - apply N.leb_le in Hbound. rewrite Hbound. reflexivity.
Qed.

(** X16: the port is 3000 when [PORT] is unset or empty, and only then by
    default: a value that starts with something other than white space, a
    sign or a decimal digit gives NaN, not 3000.  One to fifteen decimal
    digits give the number they denote, also when text follows that starts
    with a character that is no decimal digit, unless that is an x or X
    after a lone 0.  That starts a hexadecimal numeral: 0x or 0X and one to
    thirteen hexadecimal digits, in either case, give the number these
    denote in radix 16. *)
Theorem PORT_of_the_environment :
  PORT None = number 3000
  /\ PORT (Some EmptyString) = number 3000
  /\ (forall c rest,
        is_white_space c = false ->
        Ascii.eqb c "-" = false -> Ascii.eqb c "+" = false ->
        digit_value 10 c = None ->
        PORT (Some (String c rest)) = NaN)
  /\ (forall ds tail,
        ds <> [] ->
        Forall (fun d => (d < 10)%N) ds ->
        List.length ds <= 15 ->
        ends_digits ds tail ->
        PORT (Some (String.append (numeral ds) tail))
        = number (Z.of_N (numeral_value ds)))
  /\ (forall x hs,
        Ascii.eqb x "x" || Ascii.eqb x "X" = true ->
        hs <> [] ->
        Forall (fun d => (snd d < 16)%N) hs ->
        List.length hs <= 13 ->
        PORT (Some (String "0" (String x (hex_numeral hs))))
        = number (Z.of_N (hex_value hs))).
Proof.
  split; [reflexivity | split; [reflexivity | split; [| split]]].
  - intros c rest Hws Hminus Hplus Hdigit.
    unfold PORT, parseInt. cbn [trim_start]. rewrite Hws.
    cbn [strip_sign]. rewrite Hminus, Hplus.
    assert (Hzero : Ascii.eqb c "0" = false).
    { destruct (Ascii.eqb c "0") eqn:E; [| reflexivity].
      apply Ascii.eqb_eq in E. subst c. discriminate. }
    assert (Hprefix : strip_hex_prefix (String c rest) = (10%N, String c rest)).
    { unfold strip_hex_prefix. destruct rest; [reflexivity |].
      rewrite Hzero. reflexivity. }
    rewrite Hprefix. cbn [leading_digits]. rewrite Hdigit. reflexivity.
  - intros ds tail Hne Hds Hlen Htail.
    destruct ds as [| d ds]; [contradiction |].
    inversion Hds as [| d' ds' Hd Hds']; subst.
    unfold PORT. cbn [numeral String.append].
    apply (parseInt_numeral d ds tail Hd Hds' Hlen Htail).
  - intros x hs Hx Hne Hhs Hlen.
    destruct hs as [| [upper h] hs]; [contradiction |].
    inversion Hhs as [| h' hs' Hh Hhs']; subst.
    unfold PORT.
    apply (parseInt_hex_numeral x upper h hs Hx Hh Hhs' Hlen).
Qed.

Lemma PORT_of_the_environment_witness :
  PORT (Some "abc") = NaN
  /\ PORT (Some "8080") = number 8080
  /\ PORT (Some "8080/tcp") = number 8080
  /\ PORT (Some "0x1F") = number 31.
Proof.
  destruct PORT_of_the_environment as [_ [_ [Hnan [Hnum Hhex]]]].
  split; [| split; [| split]].
  - apply (Hnan "a"%char "bc"); reflexivity.
  - apply (Hnum [8; 0; 8; 0]%N EmptyString).
    + discriminate.
    + repeat constructor.
    + simpl. lia.
    + left. reflexivity.
  - apply (Hnum [8; 0; 8; 0]%N "/tcp").
    + discriminate.
    + repeat constructor.
    + simpl. lia.
    + right. exists "/"%char, "tcp". repeat split; discriminate.
  - apply (Hhex "x"%char [(false, 1%N); (true, 15%N)]).
    + reflexivity.
    + discriminate.
    + repeat constructor.
    + simpl. lia.
Defined.

(** ** What the tables do not check *)

(** X17: [bom_items] has no check on its values: an edge from any existing
    item type to itself is inserted when the pair has no row yet, whatever
    the [integer] given as quantity, zero and negative ones included. *)
Theorem schema_accepts_bom_self_loop :
  forall (db : Db) (T : uuid) (quantity : integer) (reclaimable : option bool),
    In T (itemType_ids db) ->
    ~ In (Some T, Some T) (bom_keys db) ->
    int4 quantity = true ->
    exists db',
      insert_bomItems (bomItems.mkValues (Some T) (Some T) quantity reclaimable) db
      = Ok db'
      /\ exists r, In r (db_bomItems db')
                   /\ bomItems.itemTypeId r = Some T
                   /\ bomItems.ingredientTypeId r = Some T
                   /\ bomItems.quantity r = quantity.
Proof.
  intros db T quantity reclaimable HT Hfresh Hq.
  assert (Hnew : existsb (bomItems.pk_eqb (Some T, Some T)) (bom_keys db) = false).
  { destruct (existsb _ (bom_keys db)) eqn:E; [| reflexivity].
    apply bom_key_mem in E. contradiction. }
  apply mem_uuid_In in HT.
  unfold insert_bomItems, bomItems.with_defaults, bomItems.pk.
  cbn - [existsb bomItems.pk_eqb mem_uuid int4 bom_keys itemType_ids].
  rewrite Hq, Hnew, HT. cbn [negb andb].
  eexists. split; [reflexivity |].
  eexists. split.
  - cbn [db_bomItems with_bomItems]. apply in_or_app. right. left. reflexivity.
  - repeat split.
Qed.

Lemma schema_accepts_bom_self_loop_witness :
  exists db',
    insert_bomItems (bomItems.mkValues (Some 20%N) (Some 20%N) (-3)%Z None) sample_db
    = Ok db'.
Proof.
  destruct (schema_accepts_bom_self_loop sample_db 20%N (-3)%Z None)
    as [db' [H _]].
  - simpl. left. reflexivity.
  - simpl. intros [H | []]. discriminate.
  - reflexivity.
  - exists db'. exact H.
Defined.

(** X18: [inventory_item_stock_counts] does not look at the role of the
    user: a count marked administrative is inserted for any existing user and
    item when the item has no count for that date and the count is an
    [integer]. *)
Theorem schema_accepts_administrative_count_from_any_user :
  forall (db : Db) (u : User) (item : uuid) (count : integer) (day : date),
    In u (db_users db) ->
    In item (item_ids db) ->
    ~ In (item, day) (stockCount_keys db) ->
    int4 count = true ->
    insert_inventoryItemStockCounts
      (inventoryItemStockCounts.mkValues item count day (Some true) (users.id u)) db
    = Ok (with_inventoryItemStockCounts db
            (db_inventoryItemStockCounts db
             ++ [inventoryItemStockCounts.mk item count day true (users.id u)])).
Proof.
  intros db u item count day Hu Hitem Hfresh Hcount.
  unfold insert_inventoryItemStockCounts. simpl. rewrite Hcount.
  unfold inventoryItemStockCounts.pk at 1. simpl.
  destruct (existsb _ (stockCount_keys db)) eqn:Hdup.
  - apply stockCount_key_mem in Hdup. contradiction.
  - simpl. apply mem_uuid_In in Hitem. rewrite Hitem.
    assert (Huser : mem_uuid (users.id u) (user_ids db) = true).
    { apply mem_uuid_In. apply in_map. exact Hu. }
    rewrite Huser. reflexivity.
Qed.

Lemma schema_accepts_administrative_count_from_any_user_witness :
  users.permissionRole alice = editor
  /\ exists db',
       insert_inventoryItemStockCounts
         (inventoryItemStockCounts.mkValues 41%N 85%Z 19020%Z (Some true) 1%N)
         sample_db = Ok db'.
Proof.
  split; [reflexivity |].
  eexists.
  apply (schema_accepts_administrative_count_from_any_user
           sample_db alice 41%N 85%Z 19020%Z).
  - simpl. left. reflexivity.
  - simpl. right. left. reflexivity.
  - simpl. intros [H | [H | []]]; inversion H.
  - reflexivity.
Defined.
